(** * Crucible: a shallow embedding of selected actor, item, spell and
    canvas operations, with their specification checked against the code. *)

From Stdlib Require Import ZArith QArith Lia Ascii String.
From stdpp Require Import base gmap sets list strings.

(* ------------------------------------------------------------------ *)
(** ** Foundry helpers *)

(** [Math.clamped(num, min, max)] as defined by the host platform:
    [Math.min(max, Math.max(num, min))]. *)
Definition clamped (num lo hi : Z) : Z := Z.min hi (Z.max num lo)%Z.

(* ------------------------------------------------------------------ *)
(** ** CrucibleActor.alterResources (src/unnamed/part_005) *)
Module Resources.

Local Open Scope Z_scope.

Record Resource := { value : Z; max : Z }.

Abbreviation pools := (gmap string Resource).
Abbreviation updates_t := (gmap string Z).

(** The update key [`system.resources.${resourceName}.value`]. *)
Definition key (resourceName : string) : string :=
  ("system.resources." +:+ resourceName +:+ ".value")%string.

(** One iteration of the [for ( let [resourceName, delta] of ... )] loop.
    [None] stands for the TypeError raised when a pool read by the
    iteration ([r[resourceName]], [r.wounds], [r.madness]) is absent.
    The flags [tookWounds] and [tookMadness] are never read and are left
    out. *)
Definition alter_step (r : pools) (updates : updates_t)
    (resourceName : string) (delta : Z) : option updates_t :=
  match r !! resourceName with
  | None => None
  | Some resource =>
    let uncapped := value resource + delta in
    let overflow := Z.min uncapped 0 in
    (* Overflow health onto wounds *)
    let u1 :=
      if bool_decide (resourceName = "health") && negb (Z.eqb overflow 0) then
        match r !! "wounds" with
        | None => None
        | Some w => Some (<[key "wounds" := clamped (value w - overflow) 0 (max w)]> updates)
        end
      else Some updates in
    match u1 with
    | None => None
    | Some u1 =>
      (* Overflow morale onto madness *)
      let u2 :=
        if bool_decide (resourceName = "morale") && negb (Z.eqb overflow 0) then
          match r !! "madness" with
          | None => None
          | Some m =>
            let madness := value m - overflow in
            Some (<[key "madness" := clamped madness 0 (max m)]> u1)
          end
        else Some u1 in
      match u2 with
      | None => None
      | Some u2 =>
        (* Regular update *)
        Some (<[key resourceName := clamped uncapped 0 (max resource)]> u2)
      end
    end
  end.

(** The loop over [Object.entries(changes)]; the result is the update
    object handed to [this.update]. *)
Fixpoint alter_loop (r : pools) (updates : updates_t)
    (changes : list (string * Z)) : option updates_t :=
  match changes with
  | [] => Some updates
  | (n, d) :: rest =>
    match alter_step r updates n d with
    | None => None
    | Some u => alter_loop r u rest
    end
  end.

Definition alterResources (r : pools) (changes : list (string * Z))
    (updates : updates_t) : option updates_t :=
  alter_loop r updates changes.

End Resources.

(* ------------------------------------------------------------------ *)
(** ** CrucibleActor.testDefense (src/unnamed/part_005) *)
Module Defense.

Local Open Scope Q_scope.

(** A prepared defense of [system.defenses]: the code elsewhere reads
    [defenses[type].total], also for ["physical"] (the sheet's
    [data.physical.total], the attack rolls' [defenses[defenseType].total]). *)
Record DefenseData := { total : Q }.

Record Defenses := {
  physical : DefenseData;
  dodge : DefenseData;
  parry : DefenseData;
  block : DefenseData;
  others : string -> option DefenseData
}.

(** Strict order on rationals, as a boolean. *)
Definition Qlt_bool (x y : Q) : bool := negb (Qle_bool y x).

Inductive result := HIT | DODGE | PARRY | BLOCK | DEFLECT | EFFECTIVE | RESIST.

(** JavaScript values reaching the comparisons of [testDefense]: a number,
    a plain object, or [undefined]. *)
Inductive jsval := JNum (q : Q) | JObj (o : DefenseData) | JUndef.

(** [ToNumber]: a plain object converts through ["[object Object]"] to
    [NaN]; so does [undefined]. [None] is [NaN]. *)
Definition to_number (v : jsval) : option Q :=
  match v with JNum q => Some q | _ => None end.

(** [a > b] and [a <= b] on numbers: every comparison with [NaN] is false. *)
Definition js_gt (a b : jsval) : bool :=
  match to_number a, to_number b with
  | Some x, Some y => Qlt_bool y x
  | _, _ => false
  end.

Definition js_le (a b : jsval) : bool :=
  match to_number a, to_number b with
  | Some x, Some y => Qle_bool x y
  | _, _ => false
  end.

Definition js_mul (a b : jsval) : jsval :=
  match to_number a, to_number b with
  | Some x, Some y => JNum (x * y)
  | _, _ => JUndef
  end.

(** [testDefense(defenseType, rollTotal, dc)]; [rnd] is the value of
    [twist.random()], in [[0, 1)]. [None] is the TypeError raised when a
    non-physical defense type is absent. *)
Definition testDefense (d : Defenses) (defenseType : string) (rollTotal : Q)
    (dc : jsval) (rnd : Q) : option result :=
  if bool_decide (defenseType = "physical") then
    let dc := JObj (physical d) in
    if js_gt (JNum rollTotal) dc then Some HIT
    else
      let r := js_mul (JNum rnd) (JObj (physical d)) in
      let dodge_ := total (dodge d) in
      if js_le r (JNum dodge_) then Some DODGE
      else
        let parry_ := dodge_ + total (parry d) in
        if js_le r (JNum parry_) then Some PARRY
        else
          let block_ := dodge_ + total (block d) in
          if js_le r (JNum block_) then Some BLOCK
          else Some DEFLECT
  else
    let dc' :=
      if bool_decide (defenseType = "") then Some dc
      else option_map (fun x => JNum (total x)) (others d defenseType) in
    match dc' with
    | None => None
    | Some dc' =>
      if js_gt (JNum rollTotal) dc' then Some EFFECTIVE else Some RESIST
    end.

(** The rule as the specification states it, with [dc] the physical
    defense total and [r = rnd * physical total]. *)
Definition testDefense_spec (d : Defenses) (defenseType : string)
    (rollTotal : Q) (rnd : Q) : option result :=
  if bool_decide (defenseType = "physical") then
    let pt := total (physical d) in
    if Qlt_bool pt rollTotal then Some HIT
    else
      let r := rnd * pt in
      let dg := total (dodge d) in
      if Qle_bool r dg then Some DODGE
      else if Qle_bool r (dg + total (parry d)) then Some PARRY
      else if Qle_bool r (dg + total (block d)) then Some BLOCK
      else Some DEFLECT
  else
    match others d defenseType with
    | None => None
    | Some x => if Qlt_bool (total x) rollTotal then Some EFFECTIVE else Some RESIST
    end.

End Defense.

(* ------------------------------------------------------------------ *)
(** ** CrucibleWeapon.getAllowedEquipmentSlots (src/module/data/rune.mjs) *)
Module Weapon.

Local Open Scope Z_scope.

(** [CrucibleWeapon.WEAPON_SLOTS]. *)
Definition EITHER : Z := 0.
Definition MAINHAND : Z := 1.
Definition OFFHAND : Z := 2.
Definition TWOHAND : Z := 3.

(** The fields of [this.config.category] read here. *)
Record Category := { hands : Z; off : bool }.

Record CrucibleWeapon := {
  category : Category;
  properties : list string   (** the [Set] of property ids *)
}.

Definition getAllowedEquipmentSlots (w : CrucibleWeapon) : list Z :=
  let category := category w in
  if Z.eqb (hands category) 2 then [TWOHAND]
  else
    let slots := [MAINHAND] in
    let slots := if off category then EITHER :: (slots ++ [OFFHAND]) else slots in
    let slots :=
      if bool_decide ("versatile" ∈ properties w) then slots ++ [TWOHAND] else slots in
    slots.

End Weapon.

(* ------------------------------------------------------------------ *)
(** ** CrucibleActor.canPurchaseAbility (src/unnamed/part_005) *)
Module Ability.

Local Open Scope Z_scope.

Record AbilityData := { base : Z; value : Z; increases : Z }.

(** The parts of the actor read by [canPurchaseAbility]: the level
    ([isL0] is [level === 0]), [system.abilities] and [points.ability]. *)
Record Actor := {
  level : Z;
  abilities : string -> option AbilityData;
  pool : Z;
  available : Z
}.

Definition isL0 (a : Actor) : bool := Z.eqb (level a) 0.

(** [!x] on a number: true exactly for [0]. *)
Definition js_not (x : Z) : bool := Z.eqb x 0.

(** [canPurchaseAbility(ability, delta)]; [None] is the bare [return]
    ([undefined]) taken for an unknown ability or a zero delta. *)
Definition canPurchaseAbility (actor : Actor) (ability : string) (delta : Z)
    : option bool :=
  let delta := Z.sgn delta in
  match abilities actor ability with
  | None => None
  | Some a =>
    if Z.eqb delta 0 then None
    else if isL0 actor then
      (* Case 1 - Point Buy *)
      if (0 <? delta) && (Z.eqb (base a) 3 || js_not (pool actor)) then Some false
      else if (delta <? 0) && Z.eqb (base a) 0 then Some false
      else Some true
    else
      (* Case 2 - Regular Increase *)
      if (0 <? delta) && (Z.eqb (value a) 12 || js_not (available actor)) then Some false
      else if (delta <? 0) && Z.eqb (increases a) 0 then Some false
      else Some true
  end.

End Ability.

(* ------------------------------------------------------------------ *)
(** ** CrucibleActor.#isEffectExpired (src/unnamed/part_005) *)
Module Effects.

Local Open Scope Z_scope.

(** [effect.duration] and [effect.origin]; [rounds = None] when
    [Number.isNumeric(rounds)] fails. *)
Record ActiveEffect := {
  startRound : Z;
  rounds : option Z;
  origin : string
}.

(** [#isEffectExpired(effect, start)] for the actor with [uuid], when the
    current combat round ([game.combat.round]) is [round]. *)
Definition isEffectExpired (uuid : string) (round : Z) (effect : ActiveEffect)
    (start : bool) : bool :=
  match rounds effect with
  | None => false
  | Some r =>
    let isSelf := bool_decide (origin effect = uuid) in
    let remaining := (startRound effect + r) - round in
    if isSelf then remaining <=? 0
    else if start then remaining <? 0
    else remaining <=? 0
  end.

(** [expireEffects(start)]: the ids of the effects deleted. *)
Definition expireEffects (uuid : string) (round : Z)
    (effects : list (string * ActiveEffect)) (start : bool) : list string :=
  map fst (filter (fun e => isEffectExpired uuid round (snd e) start = true) effects).

(** The evaluation points of a combat, in order: the start of the owner's
    turn on a round, then its end. *)
Definition eval_index (round : Z) (start : bool) : Z :=
  2 * round + (if start then 0 else 1).

End Effects.

(* ------------------------------------------------------------------ *)
(** ** CrucibleActor._prepareArmor (src/unnamed/part_005) *)
Module Armor.

Record Item := { id : string; equipped : bool }.

(** The values held by the local [armors]: an array of items, or (after
    [armors = armors[0]]) a single item document. *)
Inductive jsval := JArr (l : list Item) | JItem (i : Item) | JUndefined.

(** [v[0]]: the first element of an array; an item document has no
    property ["0"], so indexing it yields [undefined]. *)
Definition index0 (v : jsval) : jsval :=
  match v with
  | JArr (x :: _) => JItem x
  | JArr [] => JUndefined
  | JItem _ => JUndefined
  | JUndefined => JUndefined
  end.

(** [_prepareArmor(armorItems)]: the resolved armor and the warnings
    raised. [unarmored] is the item built by [_getUnarmoredArmor()]. *)
Definition prepareArmor (armorItems : list Item) (unarmored : Item)
    : Item * list string :=
  let armors := JArr (filter (fun i => equipped i = true) armorItems) in
  let '(armors, warnings) :=
    match armors with
    | JArr l =>
      if Nat.ltb 1 (length l) then (index0 armors, ["more than one equipped armor"])
      else (armors, [])
    | _ => (armors, [])
    end in
  match index0 armors with
  | JItem i => (i, warnings)
  | _ => (unarmored, warnings)
  end.

End Armor.

(* ------------------------------------------------------------------ *)
(** ** CrucibleTokenObject engagement (src/module/canvas/token.mjs) *)
Module Token.

(** Tokens are named by [nat]; the canvas state maps each token to its
    [engaged] set. The sets are shared, mutable objects in the code; the
    state keeps one set per token and every mutation goes through it. *)
Abbreviation canvas := (gmap nat (gset nat)).

Definition engaged (st : canvas) (t : nat) : gset nat := default ∅ (st !! t).

(** [this.engaged.delete(token); token.engaged.delete(this)]. *)
Definition unlink (st : canvas) (self t : nat) : canvas :=
  let st := <[self := engaged st self ∖ {[t]}]> st in
  <[t := engaged st t ∖ {[self]}]> st.

(** [this.engaged.add(token); token.engaged.add(this)]. *)
Definition link (st : canvas) (self t : nat) : canvas :=
  let st := <[self := engaged st self ∪ {[t]}]> st in
  <[t := engaged st t ∪ {[self]}]> st.

(** [updateFlanking({commit, enemies})] on token [self], with [enemies]
    the set passed in or computed by [#computeEngagement]. The first loop
    iterates [this.engaged] while deleting from it only the element being
    visited, so it visits the elements present when it starts. The
    [actor.updateFlanking] calls made on commit do not touch the engaged
    sets and are left out. *)
Definition updateFlanking (st : canvas) (self : nat) (enemies : gset nat) : canvas :=
  let st := foldl (fun st t =>
      if bool_decide (t ∈ enemies) then st (* No change *)
      else unlink st self t) st (elements (engaged st self)) in
  foldl (fun st t =>
      if bool_decide (t ∈ engaged st self) then st (* No change *)
      else link st self t) st (elements enemies).

(** How the deletion handler ends: it returns, or [token.actor] is
    [undefined] and [token.actor.updateFlanking] throws a TypeError. The
    sets are mutated in place, so the state at the throw is what stays. *)
Inductive handled :=
  | Done (st : canvas)
  | Thrown (st : canvas).

(** The loop of [_onDelete] over [this.engaged]: [token.engaged.delete(this)],
    then, when [commit], [token.actor.updateFlanking(token.engaged)] without
    an actor check. [hasActor t] tells whether token [t] has an actor; the
    [actor.updateFlanking] call itself does not touch the engaged sets. *)
Fixpoint onDelete_loop (self : nat) (commit : bool) (hasActor : nat -> bool)
    (st : canvas) (l : list nat) : handled :=
  match l with
  | [] => Done st
  | t :: l =>
    let st := <[t := engaged st t ∖ {[self]}]> st in
    if commit && negb (hasActor t) then Thrown st
    else onDelete_loop self commit hasActor st l
  end.

(** [_onDelete]: the loop, then [this.engaged.clear()] if it returned. *)
Definition onDelete (st : canvas) (self : nat) (commit : bool) (hasActor : nat -> bool) : handled :=
  match onDelete_loop self commit hasActor st (elements (engaged st self)) with
  | Done st' => Done (<[self := ∅]> st')
  | Thrown st' => Thrown st'
  end.


(** [_onCreate]: the set computed by [_draw] becomes [enemies], the token
    starts from a fresh empty set, then [updateFlanking]. *)
Definition onCreate (st : canvas) (self : nat) : canvas :=
  let enemies := engaged st self in
  updateFlanking (<[self := ∅]> st) self enemies.

Definition symmetric (st : canvas) : Prop :=
  ∀ a b, b ∈ engaged st a ↔ a ∈ engaged st b.

(** A decision procedure: every recorded edge has its mirror. *)
Definition symmetricb (st : canvas) : bool :=
  bool_decide (map_Forall (fun a s => set_Forall (fun b => a ∈ engaged st b) s) st).

End Token.

(* ------------------------------------------------------------------ *)
(** ** CrucibleActor._prepareTalents and _prepareActions (src/unnamed/part_005) *)
Module Talents.

Local Open Scope Z_scope.

(** A talent item: its id, the rune, gesture and inflection it grants
    (blank string when none) and the ids of its actions. *)
Record Talent := {
  tid : string;
  rune : string;
  gesture : string;
  inflection : string;
  actions : list string
}.

Record Grimoire := {
  runes : gset string;
  gestures : gset string;
  inflections : gset string
}.

Record TalentPoints := { total : Z; spent : Z; available : Z }.

Record TalentState := {
  talentIds : gset string;
  grimoire : Grimoire;
  points : TalentPoints;
  warnings : list string
}.

(** A string in a test position: blank is falsy. *)
Definition truthy (s : string) : bool := negb (bool_decide (s = "")).

(** The body of [for ( const t of talent )]. *)
Definition talent_step (s : TalentState) (t : Talent) : TalentState :=
  let ids := talentIds s ∪ {[tid t]} in
  let p := points s in
  let p := {| total := total p; spent := spent p + 1; available := available p |} in
  let g := grimoire s in
  let g :=
    if truthy (rune t) then
      let rs := runes g ∪ {[rune t]} in
      let gs := if bool_decide (gestures g = ∅) then gestures g ∪ {["touch"]} else gestures g in
      {| runes := rs; gestures := gs; inflections := inflections g |}
    else g in
  let g :=
    if truthy (gesture t) then
      {| runes := runes g; gestures := gestures g ∪ {[gesture t]}; inflections := inflections g |}
    else g in
  let g :=
    if truthy (inflection t) then
      {| runes := runes g; gestures := gestures g; inflections := inflections g ∪ {[inflection t]} |}
    else g in
  {| talentIds := ids; grimoire := g; points := p; warnings := warnings s |}.

(** [_prepareTalents({talent})], given [system.points.talent] as it stands
    before the pass. *)
Definition startState (p0 : TalentPoints) : TalentState :=
  {| talentIds := ∅;
     grimoire := {| runes := ∅; gestures := ∅; inflections := ∅ |};
     points := p0; warnings := [] |}.

Definition talentWarning : string :=
  "more Talents unlocked than talent points available".

Definition prepareTalents (talent : list Talent) (p0 : TalentPoints) : TalentState :=
  let s := foldl talent_step (startState p0) talent in
  let p := points s in
  let p := {| total := total p; spent := spent p; available := total p - spent p |} in
  let w := if available p <? 0
           then warnings s ++ [talentWarning]
           else warnings s in
  {| talentIds := talentIds s; grimoire := grimoire s; points := p; warnings := w |}.

(** Modelled from the spec: the base preparation of the actor's system data
    (missing from src), which starts [points.talent] with nothing spent
    before the talent pass adds a flat 1 per talent. *)
Definition initialTalentPoints (budget : Z) : TalentPoints :=
  {| total := budget; spent := 0; available := budget |}.

(** [_prepareActions()]: the registry maps an action id to where the
    prepared action came from (["default"] or the talent id); the prepared
    action itself is built by [CrucibleAction.prepareForActor], which is
    not part of this pass. [reload] is [this.equipment.weapons.reload]. *)
Definition prepareActions (defaults : list string) (g : Grimoire) (reload : bool)
    (talent : list Talent) : gmap string string :=
  let reg := foldl (fun reg a =>
      if bool_decide (a = "cast") && negb (bool_decide (gestures g ≠ ∅) && bool_decide (runes g ≠ ∅))
      then reg
      else if bool_decide (a = "reload") && negb reload then reg
      else <[a := "default"]> reg) ∅ defaults in
  foldl (fun reg t => foldl (fun reg a => <[a := tid t]> reg) reg (actions t)) reg talent.

(** [prepareEmbeddedDocuments] for a non-adversary actor, as far as talents
    and actions go: [_prepareTalents] runs first, [_prepareActions] last. *)
Definition prepareActor (talent : list Talent) (budget : Z) (defaults : list string)
    (reload : bool) : TalentState * gmap string string :=
  let s := prepareTalents talent (initialTalentPoints budget) in
  (s, prepareActions defaults (grimoire s) reload talent).

End Talents.

(* ------------------------------------------------------------------ *)
(** ** CrucibleSpell cost preparation (src/module/data/rune.mjs) *)
Module Spell.

Local Open Scope Z_scope.

(** An action cost; [health] is absent until something sets it. *)
Record Cost := { action : Z; focus : Z; health : option Z }.

Record Gesture := { gid : string; gcost : Cost }.
Record Inflection := { icost : Cost }.

(** [CrucibleSpell.COMPOSITION_STATES]. *)
Definition NONE : Z := 0.
Definition COMPOSING : Z := 1.
Definition COMPOSED : Z := 2.

Record CrucibleSpell := {
  gesture : Gesture;
  inflection : option Inflection;
  composition : Z;
  cost : Cost;
  trueCost : option Cost
}.

(** What [_prepareForActor] reads from [this.actor]. *)
Record ActorCtx := {
  talentIds : list string;
  rangedAttack : bool;
  arcaneArcher : bool;
  meleeAttack : bool;
  spellblade : bool
}.

Definition set_cost (s : CrucibleSpell) (c : Cost) : CrucibleSpell :=
  {| gesture := gesture s; inflection := inflection s; composition := composition s;
     cost := c; trueCost := trueCost s |}.

Definition has (l : list string) (x : string) : bool := bool_decide (x ∈ l).

(** [static #prepareCost(spell)]. *)
Definition prepareCost (s : CrucibleSpell) : Cost :=
  let cost := gcost (gesture s) in
  match inflection s with
  | Some i =>
    {| action := action cost + action (icost i);
       focus := focus cost + focus (icost i);
       health := health cost |}
  | None => cost
  end.

(** The cost changes of [static #prepareGesture()]: the arcane archer and
    spellblade signatures lower the action cost by one. The other effects
    of that method (targets, active effects, usage flags) leave the cost
    alone and are not modelled. *)
Definition prepareGesture (a : ActorCtx) (s : CrucibleSpell) : CrucibleSpell :=
  let c := cost s in
  let dec := {| action := action c - 1; focus := focus c; health := health c |} in
  if bool_decide (gid (gesture s) = "arrow") then
    if has (talentIds a) "arcanearcher0000" && rangedAttack a && negb (arcaneArcher a)
    then set_cost s dec else s
  else if bool_decide (gid (gesture s) = "strike") then
    if has (talentIds a) "spellblade000000" && meleeAttack a && negb (spellblade a)
    then set_cost s dec else s
  else s.

Section PrepareForActor.

(** [CrucibleAction.prototype._prepareForActor], called first through
    [super]; it is not part of this file's sources and is left arbitrary. *)
Variable super_prepareForActor : CrucibleSpell -> CrucibleSpell.

(** [_prepareForActor()]. *)
Definition prepareForActor (a : ActorCtx) (s : CrucibleSpell) : CrucibleSpell :=
  let s := prepareGesture a (super_prepareForActor s) in
  (* Blood Magic *)
  let s :=
    if has (talentIds a) "bloodmagic000000" then
      let c := cost s in
      set_cost s {| action := action c; focus := 0; health := Some (focus c * 10) |}
    else s in
  (* Zero cost for un-composed spells *)
  let tc := cost s in
  let s := {| gesture := gesture s; inflection := inflection s;
              composition := composition s; cost := cost s; trueCost := Some tc |} in
  if negb (Z.eqb (composition s) COMPOSED) then
    let c := cost s in
    set_cost s {| action := 0; focus := 0; health := health c |}
  else s.

End PrepareForActor.

End Spell.

(* ------------------------------------------------------------------ *)
(** ** standardizeItemIds (src/unnamed/part_000) *)
Module Standardize.

Record WorldItem := { id : string; name : string }.

Definition is_lower (c : ascii) : bool :=
  let n := Ascii.nat_of_ascii c in Nat.leb 97 n && Nat.leb n 122.
Definition is_upper (c : ascii) : bool :=
  let n := Ascii.nat_of_ascii c in Nat.leb 65 n && Nat.leb n 90.
Definition is_digit (c : ascii) : bool :=
  let n := Ascii.nat_of_ascii c in Nat.leb 48 n && Nat.leb n 57.

Definition to_lower (c : ascii) : ascii :=
  if is_upper c then Ascii.ascii_of_nat (Ascii.nat_of_ascii c + 32) else c.

(** The host's [String#slugify({replacement: "", strict: true})] on ASCII
    text: lower case, whitespace replaced by the empty replacement, then
    everything but letters and digits removed. *)
Fixpoint slugify (s : string) : string :=
  match s with
  | EmptyString => EmptyString
  | String c rest =>
    let c := to_lower c in
    if is_lower c || is_digit c then String c (slugify rest) else slugify rest
  end.

Fixpoint take_str (n : nat) (s : string) : string :=
  match n, s with
  | O, _ => EmptyString
  | _, EmptyString => EmptyString
  | S n, String c rest => String c (take_str n rest)
  end.

(** [s.padEnd(16, "0")]. *)
Definition padEnd16 (s : string) : string :=
  (s +:+ String.concat "" (repeat "0" (16 - String.length s)))%string.

Definition standardId (item : WorldItem) : string :=
  padEnd16 (take_str 16 (slugify (name item))).

(** The outcome of the loop: the thrown conflict error, or the ids to
    delete and the items to create, committed afterwards in that order. *)
Inductive outcome :=
  | Conflict (standardId : string)
  | Commit (deletions : list string) (creations : list WorldItem).

(** The loop of [standardizeItemIds()] over [game.items], which is not
    modified while the loop runs. *)
Fixpoint standardize_loop (world : list WorldItem) (items : list WorldItem)
    (deletions : list string) (creations : list WorldItem) : outcome :=
  match items with
  | [] => Commit deletions creations
  | item :: rest =>
    let sid := standardId item in
    if bool_decide (id item = sid) then standardize_loop world rest deletions creations
    else if existsb (fun i => bool_decide (id i = sid)) world then Conflict sid
    else standardize_loop world rest (deletions ++ [id item])
           (creations ++ [{| id := sid; name := name item |}])
  end.

Definition standardizeItemIds (world : list WorldItem) : outcome :=
  standardize_loop world world [] [].

(** The world after the commit: [Item.deleteDocuments(deletions)] first.
    The items that survive the deletion are the originals left intact. *)
Definition after_deletions (world : list WorldItem) (o : outcome) : list WorldItem :=
  match o with
  | Conflict _ => world
  | Commit dels _ => filter (fun i => negb (bool_decide (id i ∈ dels))) world
  end.

End Standardize.

(* ------------------------------------------------------------------ *)
(** ** CrucibleActor.purchaseAbility (src/unnamed/part_005) *)
Module AbilityPurchase.
Import Ability.
Local Open Scope Z_scope.

(** What [purchaseAbility] does: nothing (bare [return]), a warning, or
    the one field it updates. *)
Inductive purchase :=
  | NoOp
  | Warn (msg : string)
  | SetBase (v : Z)        (** [system.abilities.<id>.base] *)
  | SetIncreases (v : Z).  (** [system.abilities.<id>.increases] *)

(** [purchaseAbility(ability, delta)]. [!this.canPurchaseAbility(...)]
    holds for [false] and for [undefined]. *)
Definition purchaseAbility (actor : Actor) (ability : string) (delta : Z) : purchase :=
  let delta := Z.sgn delta in
  match abilities actor ability with
  | None => NoOp
  | Some a =>
    if Z.eqb delta 0 then NoOp
    else match canPurchaseAbility actor ability delta with
    | Some true =>
      if isL0 actor then SetBase (Z.max (base a + delta) 0)
      else SetIncreases (increases a + delta)
    | _ =>
      Warn (if 0 <? delta then "WARNING.AbilityCannotIncrease"
            else "WARNING.AbilityCannotDecrease")
    end
  end.

End AbilityPurchase.

(* ------------------------------------------------------------------ *)
(** ** CrucibleActor.canPurchaseSkill and purchaseSkill (src/unnamed/part_005) *)
Module Skills.
Local Open Scope Z_scope.

(** A prepared skill: its rank, its chosen path (a blank string stands
    for [null] or no path: both are falsy) and the cost of the next rank. *)
Record Skill := { rank : Z; path : string; cost : Z }.

(** The parts of the actor read here. [ancestry] and [background] are
    [system.details.ancestry] and [.background]; [None] is a [null]
    detail, whose [.name] raises a TypeError. [skillAvailable] is
    [points.skill.available]. *)
Record SkillActor := {
  skills : string -> option Skill;
  ancestry : option string;
  background : option string;
  skillAvailable : Z
}.

(** A boolean result, or an exception thrown. *)
Inductive check := Ret (b : bool) | Throw (msg : string).

Definition typeError : string := "TypeError".

Definition fail (strict : bool) (msg : string) : check :=
  if strict then Throw msg else Ret false.

(** [canPurchaseSkill(skillId, delta, strict)]. *)
Definition canPurchaseSkill (a : SkillActor) (skillId : string) (delta : Z)
    (strict : bool) : check :=
  let delta := Z.sgn delta in
  match skills a skillId with
  | None => Ret false
  | Some skill =>
    if Z.eqb delta 0 then Ret false
    else
    (* Must Choose Background first *)
    match ancestry a, background a with
    | None, _ => Throw typeError
    | Some an, None => if Talents.truthy an then Throw typeError
                       else fail strict "WARNING.SkillRequireAncestryBackground"
    | Some an, Some bg =>
      if negb (Talents.truthy an) || negb (Talents.truthy bg) then
        fail strict "WARNING.SkillRequireAncestryBackground"
      (* Decreasing Skill *)
      else if delta <? 0 then
        if Z.eqb (rank skill) 0 then fail strict "Cannot decrease skill rank"
        else Ret true
      (* Maximum Rank *)
      else if Z.eqb (rank skill) 5 then fail strict "Skill already at maximum"
      (* Require Specialization *)
      else if Z.eqb (rank skill) 3 && negb (Talents.truthy (path skill)) then
        fail strict "SKILL.ChoosePath"
      (* Cannot Afford *)
      else if skillAvailable a <? cost skill then fail strict "SKILL.CantAfford"
      (* Can purchase *)
      else Ret true
    end
  end.

(** What [purchaseSkill] does: nothing, a warning (the caught error), or
    the update of the rank, with [path] reset to [null] when [clearPath]. *)
Inductive purchase :=
  | NoSkill
  | Warn (msg : string)
  | Update (newRank : Z) (clearPath : bool).

(** [purchaseSkill(skillId, delta)]: the strict check runs inside
    [try]; a thrown error becomes a warning, a returned value is ignored. *)
Definition purchaseSkill (a : SkillActor) (skillId : string) (delta : Z) : purchase :=
  let delta := Z.sgn delta in
  match skills a skillId with
  | None => NoSkill
  | Some skill =>
    match canPurchaseSkill a skillId delta true with
    | Throw m => Warn m
    | Ret _ =>
      let r := rank skill + delta in
      Update r (Z.eqb r 3)
    end
  end.

End Skills.

(* ------------------------------------------------------------------ *)
(** ** CrucibleActor.getTargetBoons (src/unnamed/part_005) *)
Module Boons.
Local Open Scope Z_scope.

(** The [defenseType] argument: a string, or the object
    [{attackType, defenseType, ranged}] passed by [CrucibleWeapon.attack]. *)
Inductive defenseArg := DStr (s : string) | DObj.

(** [combatant?.initiative]: a number, [null] (not rolled), or
    [undefined] (no combatant). *)
Inductive initiative := INum (z : Z) | INull | IUndef.

(** [ToNumber]: [null] is [0], [undefined] is [NaN] ([None]). *)
Definition init_number (i : initiative) : option Z :=
  match i with INum z => Some z | INull => Some 0 | IUndef => None end.

Definition init_gt (a b : initiative) : bool :=
  match init_number a, init_number b with
  | Some x, Some y => y <? x
  | _, _ => false
  end.

Record Target := {
  statuses : list string;
  targetTalents : list string;
  shield : bool;          (** [equipment.weapons.shield], as a truth value *)
  targetInitiative : initiative
}.

Record Attacker := {
  talentIds : list string;
  initiative_ : initiative
}.

Definition has (l : list string) (x : string) : bool := bool_decide (x ∈ l).

(** [getTargetBoons(target, defenseType)]: [(boons, banes)]. *)
Definition getTargetBoons (self : Attacker) (target : Target) (defenseType : defenseArg)
    : Z * Z :=
  let '(boons, banes) :=
    (* Physical Attacks *)
    if (match defenseType with DStr s => bool_decide (s = "physical") | DObj => false end)
    then
      let boons := if has (statuses target) "exposed" then 2 else 0 in
      let banes :=
        if has (statuses target) "guarded" then
          if has (targetTalents target) "testudo000000000" && shield target then 2 else 1
        else 0 in
      (boons, banes)
    else (0, 0) in
  (* Initiative Difference *)
  let boons :=
    if has (talentIds self) "strikefirst00000" then
      if init_gt (initiative_ self) (targetInitiative target) then boons + 1 else boons
    else boons in
  (boons, banes).

End Boons.

(* ------------------------------------------------------------------ *)
(** ** CrucibleWeapon.attack, resolution of the attack roll
    (src/module/data/rune.mjs) *)
Module WeaponAttack.
Import Defense.
Local Open Scope Q_scope.

Definition is_hit (r : result) : bool := match r with HIT => true | _ => false end.
Definition is_deflect (r : result) : bool := match r with DEFLECT => true | _ => false end.

(** After [roll.evaluate()]: [r = target.testDefense(defenseType, roll.total)]
    (no [dc] passed: [undefined]); [rnd] is the [twist.random()] drawn
    inside. The boolean tells whether the code goes on to the damage block
    ([roll.data.damage = ...]) or returns the roll without damage. *)
Definition resolveAttack (d : Defenses) (defenseType : string) (rollTotal rnd : Q)
    (isCriticalFailure : bool) : option (result * bool) :=
  match testDefense d defenseType rollTotal JUndef rnd with
  | None => None
  | Some r =>
    (* Deflection and Avoidance *)
    let damage :=
      if is_deflect r then negb isCriticalFailure
      else is_hit r in
    Some (r, damage)
  end.

(** The target-boons argument built by [attack]. *)
Definition attackBoonsArg : Boons.defenseArg := Boons.DObj.

End WeaponAttack.

(* ------------------------------------------------------------------ *)
(** ** CrucibleActor.dealDamage and applyDamageOverTime (src/unnamed/part_005) *)
Module Damage.
Local Open Scope Z_scope.

(** [roll.data.damage]: [total] and [resource] may be absent. *)
Record DamageData := {
  dtotal : option Z;
  healing : bool;
  resource : option string
}.

Record AttackRoll := {
  damage : option DamageData;   (** [None]: no damage data, read as [{}] *)
  isCriticalSuccess : bool;
  isCriticalFailure : bool
}.

(** A plain object keyed by strings, in insertion order. *)
Abbreviation obj := (list (string * Z)).

(** [o[k] ??= 0; o[k] += x]. *)
Fixpoint obj_add (o : obj) (k : string) (x : Z) : obj :=
  match o with
  | [] => [(k, 0 + x)]
  | (k', v) :: o' =>
    if bool_decide (k = k') then (k', v + x) :: o' else (k', v) :: obj_add o' k x
  end.

Record DamageOutcome := {
  total : Z;
  resources : obj;
  critical : bool;
  failure : bool
}.

Definition emptyDamage : DamageData :=
  {| dtotal := None; healing := false; resource := None |}.

(** One iteration of [for ( const roll of rolls )]. *)
Definition deal_step (direction : Z) (acc : obj * bool * bool) (roll : AttackRoll)
    : obj * bool * bool :=
  let '(resources, critical, failure) := acc in
  let damage := default emptyDamage (damage roll) in
  let resource := default "health" (resource damage) in
  let resources := obj_add resources resource
      (default 0 (dtotal damage) * (if healing damage then -1 else 1) * direction) in
  if isCriticalSuccess roll then (resources, true, failure)
  else if isCriticalFailure roll then (resources, critical, true)
  else (resources, critical, failure).

(** The outcome computed by [dealDamage(target, rolls, {reverse})] and the
    change object it hands to [target.alterResources]. The
    [incapacitated] and [broken] flags are read from the target's getters
    around the update and are not part of this model. *)
Definition dealDamage (rolls : list AttackRoll) (reverse : bool) : DamageOutcome :=
  let direction := if reverse then 1 else -1 in
  let '(resources, critical, failure) :=
    foldl (deal_step direction) ([], false, false) rolls in
  {| total := foldl (fun t kv => t - snd kv) 0 resources;
     resources := resources; critical := critical; failure := failure |}.

(** The damage one roll contributes, before the direction: its total,
    negated for healing. *)
Definition signed (roll : AttackRoll) : Z :=
  let damage := default emptyDamage (damage roll) in
  default 0 (dtotal damage) * (if healing damage then -1 else 1).

(** A sum over a list, in [Z]. *)
Definition zsum {A} (f : A -> Z) (l : list A) : Z := foldr (fun x s => f x + s) 0 l.

(** The sum of the values of a plain object, and the value under a key. *)
Definition obj_sum (o : obj) : Z := zsum snd o.

Definition obj_lookup (o : obj) (k : string) : Z :=
  zsum snd (filter (fun kv => kv.1 = k) o).

Definition rollResource (roll : AttackRoll) : string :=
  default "health" (resource (default emptyDamage (damage roll))).

(** A damage-over-time flag [effect.flags.crucible.dot]: the amount per
    resource key present ([r in dot]) and the damage type. *)
Record Dot := { amounts : string -> option Z; damageType : string }.

Record Effect := { dot : option Dot; label : string }.

(** The [damage] object built for one effect: [resourceIds] is
    [Object.keys(SYSTEM.RESOURCES)], [resistances] the actor's
    [resistances[type].total] ([None]: the TypeError of a missing type). *)
Fixpoint dot_damage (resourceIds : list string) (resistances : string -> option Z)
    (dt : Dot) : option obj :=
  match resourceIds with
  | [] => Some []
  | r :: ids =>
    match amounts dt r with
    | None => dot_damage ids resistances dt
    | Some v =>
      match resistances (damageType dt) with
      | None => None
      | Some res =>
        let d := clamped (v - res) 0 (2 * v) in
        option_map (fun o => (r, 0 - d) :: o) (dot_damage ids resistances dt)
      end
    end
  end.

(** [applyDamageOverTime()]: the [alterResources(damage, {}, {statusText})]
    calls it makes, in order; [None] is a TypeError. An effect without a
    [dot] flag is skipped ([continue]); an effect whose damage object is
    empty ends the method ([return]). *)
Fixpoint applyDamageOverTime (resourceIds : list string)
    (resistances : string -> option Z) (effects : list Effect)
    : option (list (string * obj)) :=
  match effects with
  | [] => Some []
  | e :: es =>
    match dot e with
    | None => applyDamageOverTime resourceIds resistances es
    | Some dt =>
      match dot_damage resourceIds resistances dt with
      | None => None
      | Some [] => Some []
      | Some damage =>
        option_map (fun calls => (label e, damage) :: calls)
          (applyDamageOverTime resourceIds resistances es)
      end
    end
  end.

End Damage.

(* ------------------------------------------------------------------ *)
(** ** CrucibleActor.rest, _getRestData and levelUp (src/unnamed/part_005) *)
Module Advancement.
Import Resources.
Local Open Scope Z_scope.

(** [_getRestData()]: [cfgType id] is [SYSTEM.RESOURCES[id].type]
    ([None]: no configuration, a TypeError). Every pool of
    [system.resources] gets its value key written. *)
Definition rest_step (cfgType : string -> option string) (acc : option updates_t)
    (e : string * Resource) : option updates_t :=
  acc ≫= fun updates =>
  match cfgType e.1 with
  | None => None
  | Some ty =>
    Some (<[key e.1 := if bool_decide (ty = "reserve") then 0 else max e.2]> updates)
  end.

Definition getRestData (cfgType : string -> option string) (r : pools) : option updates_t :=
  foldl (rest_step cfgType) (Some ∅) (map_to_list r).

Inductive restResult := Unchanged | RestUpdate (u : updates_t).

(** [rest()]: [None] is a TypeError for a missing wounds or madness pool. *)
Definition rest (cfgType : string -> option string) (r : pools) : option restResult :=
  match r !! "wounds" with
  | None => None
  | Some w =>
    if Z.eqb (value w) (max w) then Some Unchanged
    else match r !! "madness" with
    | None => None
    | Some m =>
      if Z.eqb (value m) (max m) then Some Unchanged
      else option_map RestUpdate (getRestData cfgType r)
    end
  end.

(** The parts of the actor read by [levelUp]. *)
Record LevelActor := {
  level : Z;
  ancestryName : option string;    (** [details.ancestry?.name] *)
  backgroundName : option string;  (** [details.background?.name] *)
  requireInput : bool;             (** [points.ability.requireInput] *)
  skillAvailable : Z;
  talentAvailable : Z
}.

Inductive levelResult :=
  | LNoOp
  | LWarn (msg : string)
  (** The update: [system.advancement.level], the rest data of the clone,
      [system.advancement.progress]. *)
  | LUpdate (newLevel : Z) (restData : updates_t) (progress : Z).

Definition truthy_opt (s : option string) : bool :=
  match s with Some s => Talents.truthy s | None => false end.

(** [levelUp(delta)]. The clone is re-prepared at the new level by the data
    model, outside these sources: [clonePools l] and [cloneNext l] are its
    resource pools and [advancement.next] once prepared at level [l]. *)
Definition levelUp (a : LevelActor) (cfgType : string -> option string)
    (clonePools : Z -> pools) (cloneNext : Z -> Z) (delta : Z) : option levelResult :=
  if Z.eqb delta 0 then Some LNoOp
  else
  (* Confirm that character creation is complete *)
  let steps := [truthy_opt (ancestryName a); truthy_opt (backgroundName a);
                negb (requireInput a); Ability.js_not (skillAvailable a);
                Ability.js_not (talentAvailable a)] in
  if Z.eqb (level a) 0 && negb (forallb (fun k => k) steps) then
    Some (LWarn "WALKTHROUGH.LevelZeroIncomplete")
  else
  (* Clone the actor and advance level *)
  let lvl := clamped (level a + delta) 0 24 in
  match getRestData cfgType (clonePools lvl) with
  | None => None
  | Some u => Some (LUpdate lvl u (if 0 <? delta then 0 else cloneNext lvl))
  end.

End Advancement.

(* ------------------------------------------------------------------ *)
(** ** CrucibleWeapon data preparation (src/module/data/rune.mjs) *)
Module WeaponData.
Import Weapon.
Local Open Scope Z_scope.

(** The resolved [SYSTEM.WEAPON.CATEGORIES] entry. *)
Record CategoryCfg := {
  cat : Category;                 (** [hands] and [off] *)
  damageBase : Z;                 (** [damage.base] *)
  defBlock : option Z;            (** [defense?.block] *)
  defParry : option Z;            (** [defense?.parry] *)
  catActionCost : Z
}.

(** A quality or enchantment tier. *)
Record Tier := { rarity : Z; bonus : Z }.

(** A [SYSTEM.WEAPON.PROPERTIES] entry; an absent field is [0], which is
    falsy and skipped. *)
Record PropCfg := { propActionCost : Z; propRarity : Z }.

(** The source data of the weapon. *)
Record WeaponSrc := {
  slot : Z;
  wproperties : list string;
  broken : bool;
  price : Z
}.

Record Prepared := {
  pslot : Z;
  dmgBase : Z;
  dmgQuality : Z;
  dmgWeapon : Z;
  block : Z;
  parry : Z;
  prarity : Z;
  pprice : Z;
  actionCost : Z
}.

Definition weaponOf (c : CategoryCfg) (w : WeaponSrc) : CrucibleWeapon :=
  {| category := cat c; properties := wproperties w |}.

(** [#prepareDamage()]. *)
Definition prepareDamage (c : CategoryCfg) (quality : Tier) (w : WeaponSrc) : Z * Z :=
  let base := damageBase c in
  let base := if bool_decide ("oversized" ∈ wproperties w) then base + 2 else base in
  (base, bonus quality).

(** [#prepareDefense()]: [(block, parry)]. *)
Definition prepareDefense (c : CategoryCfg) (enchantment : Tier) (w : WeaponSrc) : Z * Z :=
  if broken w then (0, 0)
  else
    let block := default 0 (defBlock c) in
    let parry := default 0 (defParry c) in
    let parry := if bool_decide ("parrying" ∈ wproperties w)
                 then parry + (hands (cat c) + bonus enchantment) else parry in
    let block := if bool_decide ("blocking" ∈ wproperties w)
                 then block + (hands (cat c) + bonus enchantment) else block in
    (block, parry).

(** [prepareBaseData()] followed by [prepareDerivedData()]; [props p] is
    [SYSTEM.WEAPON.PROPERTIES[p]] ([None]: a TypeError). The action
    bonuses, read from the owning actor, are left out. *)
Definition prepareWeapon (c : CategoryCfg) (quality enchantment : Tier)
    (props : string -> option PropCfg) (w : WeaponSrc) : option Prepared :=
  (* Equipment Slot *)
  let allowedSlots := getAllowedEquipmentSlots (weaponOf c w) in
  let slot := if bool_decide (slot w ∈ allowedSlots) then slot w
              else default 0 (head allowedSlots) in
  let '(base, qual) := prepareDamage c quality w in
  let '(block, parry) := prepareDefense c enchantment w in
  (* Weapon Rarity Score *)
  let rar := rarity quality + rarity enchantment in
  let price := price w * Z.max (rar ^ 3) 1 in
  (* Weapon Properties *)
  let step (acc : option (Z * Z)) (p : string) :=
    acc ≫= fun '(cost, rar) =>
    match props p with
    | None => None
    | Some prop =>
      let cost := if negb (Z.eqb (propActionCost prop) 0) then cost + propActionCost prop else cost in
      let rar := if negb (Z.eqb (propRarity prop) 0) then rar + propRarity prop else rar in
      Some (cost, rar)
    end in
  match foldl step (Some (catActionCost c, rar)) (wproperties w) with
  | None => None
  | Some (cost, rar) =>
    (* Versatile Two-Handed *)
    let '(base, cost) :=
      if bool_decide ("versatile" ∈ wproperties w) && Z.eqb slot TWOHAND
      then (base + 2, cost + 1) else (base, cost) in
    (* prepareDerivedData *)
    let weapon := base + qual in
    let weapon := if broken w then weapon / 2 else weapon in
    Some {| pslot := slot; dmgBase := base; dmgQuality := qual; dmgWeapon := weapon;
            block := block; parry := parry; prarity := rar; pprice := price;
            actionCost := cost |}
  end.

End WeaponData.

(* ================================================================== *)
(** * Properties *)

Module ResourcesFacts.
Import Resources.
Local Open Scope Z_scope.

(** Claim C1 (code_bug): on [health.value = 10, health.max = 20],
    [wounds.value = 0, wounds.max = 50], a delta of [-20] overflows health
    by 10; the code writes [wounds.value = 10], the overflow taken once,
    where the specification (and the code's comment "double damage") asks
    for double, [20]. Health is clamped to [0]. *)
Lemma alterResources_wounds_overflow_single :
  let r := <["health" := {| value := 10; max := 20 |}]>
             (<["wounds" := {| value := 0; max := 50 |}]> ∅) in
  (alterResources r [("health", -20)] ∅ ≫= fun u => u !! key "health") = Some 0 /\
  (alterResources r [("health", -20)] ∅ ≫= fun u => u !! key "wounds") = Some 10 /\
  10 <> 2 * 10.
Proof. vm_compute. split; [reflexivity|split; [reflexivity|discriminate]]. Qed.

End ResourcesFacts.

Module DefenseFacts.
Import Defense.
Local Open Scope Q_scope.

(** The physical branch compares against the object [d.physical]: both the
    hit test and the band draw see [NaN], so every physical test ends in
    [DEFLECT]. *)
Lemma testDefense_physical_always_deflect (d : Defenses) (rollTotal : Q)
    (dc : jsval) (rnd : Q) :
  testDefense d "physical" rollTotal dc rnd = Some DEFLECT.
Proof. reflexivity. Qed.

(** Claim C2 (code_bug): with physical total 20, dodge 4, parry 2, block 0
    and a roll total of 25, the specification's rule gives [HIT]; the code
    gives [DEFLECT]. *)
Lemma testDefense_physical_object_dc :
  let d := {| physical := {| total := 20 |}; dodge := {| total := 4 |};
              parry := {| total := 2 |}; block := {| total := 0 |};
              others := fun _ => None |} in
  testDefense d "physical" 25 JUndef (1#2) = Some DEFLECT /\
  testDefense_spec d "physical" 25 (1#2) = Some HIT.
Proof. split; reflexivity. Qed.

End DefenseFacts.

Module WeaponFacts.
Import Weapon.
Local Open Scope Z_scope.

(** Claim C3: a two-handed category allows only [TWOHAND]; otherwise the
    slots are [EITHER] (off-hand eligible), [MAINHAND], [OFFHAND]
    (off-hand eligible), [TWOHAND] (versatile), in that order. *)
Lemma getAllowedEquipmentSlots_correct (w : CrucibleWeapon) :
  getAllowedEquipmentSlots w =
    (if Z.eqb (hands (category w)) 2 then [TWOHAND]
     else (if off (category w) then [EITHER] else []) ++ [MAINHAND] ++
          (if off (category w) then [OFFHAND] else []) ++
          (if bool_decide ("versatile" ∈ properties w) then [TWOHAND] else [])) /\
  getAllowedEquipmentSlots
    {| category := {| hands := 1; off := true |}; properties := ["versatile"] |} =
    [EITHER; MAINHAND; OFFHAND; TWOHAND].
Proof.
  split; [|reflexivity].
  unfold getAllowedEquipmentSlots.
  destruct (Z.eqb _ 2); [reflexivity|].
  destruct (off (category w)), (bool_decide _); reflexivity.
Qed.

End WeaponFacts.

Module AbilityFacts.
Import Ability.
Local Open Scope Z_scope.

(** Claim C4: at level 0, for a known ability, raising is refused exactly
    when the base value is 3 or the point pool is exhausted ([!pool]),
    lowering is refused exactly when the base value is 0, and any other
    purchase is allowed. *)
Lemma canPurchaseAbility_L0 (actor : Actor) (ability : string) (a : AbilityData)
    (delta : Z) (HL0 : isL0 actor = true) (Ha : abilities actor ability = Some a) :
  canPurchaseAbility actor ability delta =
    (if 0 <? delta then Some (negb (Z.eqb (base a) 3 || Z.eqb (pool actor) 0))
     else if delta <? 0 then Some (negb (Z.eqb (base a) 0))
     else None).
Proof.
  unfold canPurchaseAbility, js_not. rewrite Ha, HL0.
  destruct (Z.ltb_spec 0 delta) as [Hp|Hp].
  - rewrite (Z.sgn_pos delta Hp). simpl.
    destruct (Z.eqb (base a) 3 || Z.eqb (pool actor) 0); reflexivity.
  - destruct (Z.ltb_spec delta 0) as [Hn|Hn].
    + rewrite (Z.sgn_neg delta Hn). simpl.
      destruct (Z.eqb (base a) 0); reflexivity.
    + assert (delta = 0) as -> by lia. reflexivity.
Qed.

Lemma canPurchaseAbility_L0_witness :
  let actor := {| level := 0; pool := 0; available := 0;
                  abilities := fun id => if bool_decide (id = "strength")
                                         then Some {| base := 2; value := 2; increases := 0 |}
                                         else None |} in
  isL0 actor = true /\
  canPurchaseAbility actor "strength" 1 = Some false.
Proof.
  intros actor. split; [reflexivity|].
  rewrite (canPurchaseAbility_L0 actor "strength" {| base := 2; value := 2; increases := 0 |} 1
             eq_refl eq_refl).
  reflexivity.
Defined.

End AbilityFacts.

Module EffectsFacts.
Import Effects.
Local Open Scope Z_scope.

(** Claim C5: a self-originated effect is expired exactly when
    [(startRound + rounds) - round <= 0]; an effect from another actor uses
    [< 0] at turn start and [<= 0] at turn end. For a 1-round effect
    created on round [N], the self effect is first expired at the start of
    the owner's turn on round [N+1], the other one at the end of that turn,
    one evaluation later. *)
Lemma isEffectExpired_asymmetric (uuid other : string) (N round r : Z) (start : bool)
    (Hother : other <> uuid) :
  isEffectExpired uuid round {| startRound := N; rounds := Some r; origin := uuid |} start
    = ((N + r) - round <=? 0) /\
  isEffectExpired uuid round {| startRound := N; rounds := Some r; origin := other |} true
    = ((N + r) - round <? 0) /\
  isEffectExpired uuid round {| startRound := N; rounds := Some r; origin := other |} false
    = ((N + r) - round <=? 0) /\
  (isEffectExpired uuid round {| startRound := N; rounds := Some 1; origin := uuid |} start = true
    <-> eval_index (N + 1) true <= eval_index round start) /\
  (isEffectExpired uuid round {| startRound := N; rounds := Some 1; origin := other |} start = true
    <-> eval_index (N + 1) false <= eval_index round start).
Proof.
  unfold isEffectExpired, eval_index; simpl.
  rewrite (bool_decide_eq_true_2 (uuid = uuid)) by reflexivity.
  rewrite (bool_decide_eq_false_2 (other = uuid)) by exact Hother.
  split; [reflexivity|]. split; [reflexivity|]. split; [reflexivity|].
  split; destruct start.
  - rewrite Z.leb_le. lia.
  - rewrite Z.leb_le. lia.
  - rewrite Z.ltb_lt. lia.
  - rewrite Z.leb_le. lia.
Qed.

Lemma isEffectExpired_asymmetric_witness :
  ("actor2" <> "actor1")%string /\
  isEffectExpired "actor1" 4 {| startRound := 3; rounds := Some 1; origin := "actor2" |} true
    = false.
Proof.
  assert (H : ("actor2" <> "actor1")%string) by discriminate.
  split; [exact H|].
  destruct (isEffectExpired_asymmetric "actor1" "actor2" 3 4 1 true H) as (_ & E & _).
  rewrite E. reflexivity.
Defined.

End EffectsFacts.

Module ArmorFacts.
Import Armor.

(** Claim C10: with no equipped armor the unarmored substitute is used;
    with exactly one, that armor; with more than one, a warning and again
    the unarmored substitute, since [armors[0]] is read on the single item
    stored by [armors = armors[0]]. *)
Lemma prepareArmor_resolution (armorItems : list Item) (unarmored : Item) :
  prepareArmor armorItems unarmored =
    match filter (fun i => equipped i = true) armorItems with
    | [] => (unarmored, [])
    | [x] => (x, [])
    | _ :: _ :: _ => (unarmored, ["more than one equipped armor"])
    end.
Proof.
  unfold prepareArmor.
  destruct (filter _ armorItems) as [|x [|y l]]; reflexivity.
Qed.

End ArmorFacts.

Module TokenFacts.
Import Token.

Lemma engaged_insert (st : canvas) (k x : nat) (v : gset nat) :
  engaged (<[k := v]> st) x = if decide (x = k) then v else engaged st x.
Proof.
  unfold engaged. case_decide as Hx.
  - subst. by rewrite lookup_insert_eq.
  - by rewrite lookup_insert_ne.
Qed.





(** Deleting [self] from the sets of the tokens of [l]. *)
Lemma forget_engaged (st : canvas) (self x : nat) (l : list nat) :
  engaged (foldl (fun st t => <[t := engaged st t ∖ {[self]}]> st) st l) x =
  if decide (x ∈ l) then engaged st x ∖ {[self]} else engaged st x.
Proof.
  revert st. induction l as [|t l IH]; intros st; simpl.
  - destruct (decide (x ∈ (@nil nat))) as [Hin|]; [set_solver|done].
  - rewrite IH, engaged_insert.
    destruct (decide (x ∈ l)), (decide (x = t)), (decide (x ∈ t :: l)); subst; set_solver.
Qed.

Lemma symmetricb_sound (st : canvas) : symmetricb st = true -> symmetric st.
Proof.
  unfold symmetricb. intros Hb%bool_decide_eq_true_1 a b.
  unfold engaged.
  split; intros Hin.
  - destruct (st !! a) as [s|] eqn:Ea; simpl in Hin; [|set_solver].
    exact (Hb a s Ea b Hin).
  - destruct (st !! b) as [s|] eqn:Eb; simpl in Hin; [|set_solver].
    exact (Hb b s Eb a Hin).
Qed.

Definition forget_all (self : nat) (st : canvas) (l : list nat) : canvas :=
  foldl (fun st t => <[t := engaged st t ∖ {[self]}]> st) st l.

Lemma onDelete_loop_done (self : nat) (commit : bool) (hasActor : nat -> bool)
    (st st' : canvas) (l : list nat) :
  onDelete_loop self commit hasActor st l = Done st' <->
  st' = forget_all self st l /\ (commit = false \/ Forall (fun t => hasActor t = true) l).
Proof.
  unfold forget_all. revert st. induction l as [|t l IH]; intros st; simpl.
  - split; [intros [= <-]; auto|]. intros [-> _]. done.
  - destruct commit, (hasActor t) eqn:Ha; simpl; rewrite ?IH.
    + rewrite Forall_cons. naive_solver.
    + split; [discriminate|]. intros [_ [?|HF]]; [discriminate|].
      apply Forall_cons in HF as [? _]. congruence.
    + naive_solver.
    + naive_solver.
Qed.

Lemma onDelete_loop_thrown (self : nat) (commit : bool) (hasActor : nat -> bool)
    (st st' : canvas) (l : list nat) :
  onDelete_loop self commit hasActor st l = Thrown st' ->
  exists l1 t l2, l = l1 ++ t :: l2 /\ commit = true /\ hasActor t = false /\
    st' = forget_all self st (l1 ++ [t]).
Proof.
  unfold forget_all. revert st. induction l as [|t l IH]; intros st H; simpl in H; [discriminate|].
  destruct (commit && negb (hasActor t)) eqn:E.
  - injection H as <-. apply andb_true_iff in E as [-> E%negb_true_iff].
    exists [], t, l. done.
  - destruct (IH _ H) as (l1 & t' & l2 & -> & Hc & Ha & ->).
    exists (t :: l1), t', l2. done.
Qed.




End TokenFacts.

Module TalentsFacts.
Import Talents.
Local Open Scope Z_scope.

Lemma talent_loop_points (l : list Talent) (s : TalentState) :
  spent (points (foldl talent_step s l)) = spent (points s) + Z.of_nat (length l) /\
  total (points (foldl talent_step s l)) = total (points s) /\
  warnings (foldl talent_step s l) = warnings s.
Proof.
  revert s. induction l as [|t l IH]; intros s; simpl.
  - split; [lia|done].
  - destruct (IH (talent_step s t)) as (H1 & H2 & H3).
    rewrite H1, H2, H3. unfold talent_step.
    repeat case_match; simpl; (split; [lia|done]).
Qed.

Lemma talent_step_gestures_mono (s : TalentState) (t : Talent) :
  gestures (grimoire s) ⊆ gestures (grimoire (talent_step s t)).
Proof.
  unfold talent_step. repeat case_match; simpl; set_solver.
Qed.

Lemma talent_loop_gestures_mono (l : list Talent) (s : TalentState) :
  gestures (grimoire s) ⊆ gestures (grimoire (foldl talent_step s l)).
Proof.
  revert s. induction l as [|t l IH]; intros s; simpl; [done|].
  etrans; [apply talent_step_gestures_mono|apply IH].
Qed.

Lemma talent_step_touch (s : TalentState) (t : Talent) :
  truthy (rune t) = true -> gestures (grimoire s) = ∅ ->
  "touch" ∈ gestures (grimoire (talent_step s t)).
Proof.
  intros Hr Hg. unfold talent_step. rewrite Hr. simpl.
  rewrite (bool_decide_eq_true_2 (gestures (grimoire s) = ∅) Hg).
  repeat case_match; simpl; set_solver.
Qed.

Lemma fold_insert_keeps (l : list string) (v : string) (reg : gmap string string) (k : string) :
  is_Some (reg !! k) -> is_Some (foldl (fun reg a => <[a := v]> reg) reg l !! k).
Proof.
  revert reg. induction l as [|a l IH]; intros reg Hk; simpl; [done|].
  apply IH. destruct (decide (a = k)) as [->|Hne].
  - rewrite lookup_insert_eq. eauto.
  - by rewrite lookup_insert_ne.
Qed.

Lemma fold_insert_adds (l : list string) (v : string) (reg : gmap string string) (k : string) :
  k ∈ l -> is_Some (foldl (fun reg a => <[a := v]> reg) reg l !! k).
Proof.
  revert reg. induction l as [|a l IH]; intros reg Hk; simpl.
  - by apply elem_of_nil in Hk.
  - apply elem_of_cons in Hk as [->|Hk].
    + apply fold_insert_keeps. rewrite lookup_insert_eq. eauto.
    + by apply IH.
Qed.

Lemma talent_actions_registered (talent : list Talent) (reg : gmap string string)
    (t : Talent) (a : string) :
  t ∈ talent -> a ∈ actions t ->
  is_Some (foldl (fun reg t => foldl (fun reg a => <[a := tid t]> reg) reg (actions t)) reg talent !! a).
Proof.
  revert reg. induction talent as [|t' l IH]; intros reg Ht Ha; simpl.
  - by apply elem_of_nil in Ht.
  - apply elem_of_cons in Ht as [->|Ht].
    + assert (Hkeep : forall (l' : list Talent) (r : gmap string string), is_Some (r !! a) ->
        is_Some (foldl (fun (reg : gmap string string) t =>
                   foldl (fun (reg : gmap string string) a => <[a := tid t]> reg) reg (actions t)) r l' !! a)).
      { induction l' as [|u l' IHl]; intros r Hr; simpl; [done|].
        apply IHl, fold_insert_keeps, Hr. }
      apply Hkeep, fold_insert_adds, Ha.
    + by apply IH.
Qed.

(** Claim C7: the talent pass counts one point per talent, sets
    [available = total - spent], warns (and carries on) when [available] is
    negative, grants "touch" when a rune arrives while no gesture is
    known, and every action of every owned talent is registered. An actor
    owning 3 talents on a budget of 2 ends with [available = -1], the
    warning, and the 3 talents' actions registered. *)
Lemma prepareTalents_accounting :
  (forall (talent : list Talent) (p0 : TalentPoints),
     let res := prepareTalents talent p0 in
     spent (points res) = spent p0 + Z.of_nat (length talent) /\
     total (points res) = total p0 /\
     available (points res) = total (points res) - spent (points res) /\
     warnings res = (if available (points res) <? 0 then [talentWarning] else [])) /\
  (forall (pre post : list Talent) (t : Talent) (p0 : TalentPoints),
     truthy (rune t) = true ->
     gestures (grimoire (foldl talent_step (startState p0) pre)) = ∅ ->
     "touch" ∈ gestures (grimoire (prepareTalents (pre ++ t :: post) p0))) /\
  (forall (talent : list Talent) (budget : Z) (defaults : list string) (reload : bool)
          (t : Talent) (a : string),
     t ∈ talent -> a ∈ actions t ->
     is_Some (snd (prepareActor talent budget defaults reload) !! a)) /\
  (let three := [ {| tid := "t1"; rune := ""; gesture := ""; inflection := ""; actions := ["a1"] |};
                  {| tid := "t2"; rune := ""; gesture := ""; inflection := ""; actions := ["a2"] |};
                  {| tid := "t3"; rune := ""; gesture := ""; inflection := ""; actions := ["a3"] |} ] in
   let res := prepareActor three 2 ["strike"; "cast"] false in
   available (points (fst res)) = -1 /\ warnings (fst res) = [talentWarning] /\
   Forall (fun a => is_Some (snd res !! a)) ["a1"; "a2"; "a3"]).
Proof.
  split; [|split; [|split]].
  - intros talent p0. unfold prepareTalents. simpl.
    destruct (talent_loop_points talent (startState p0)) as (H1 & H2 & H3).
    rewrite H1, H2, H3. simpl.
    split; [lia|]. split; [done|]. split; [done|].
    case_match; reflexivity.
  - intros pre post t p0 Hr Hg. unfold prepareTalents. simpl.
    rewrite foldl_app. simpl.
    apply talent_loop_gestures_mono, talent_step_touch; assumption.
  - intros talent budget defaults reload t a Ht Ha. unfold prepareActor, prepareActions. simpl.
    by apply talent_actions_registered with t.
  - vm_compute. split; [reflexivity|]. split; [reflexivity|].
    repeat constructor; eexists; reflexivity.
Qed.

Lemma prepareTalents_accounting_witness :
  "touch" ∈ gestures (grimoire (prepareTalents
     [{| tid := "t1"; rune := "flame"; gesture := ""; inflection := ""; actions := [] |}]
     (initialTalentPoints 1))).
Proof.
  destruct prepareTalents_accounting as (_ & Htouch & _).
  apply (Htouch [] [] {| tid := "t1"; rune := "flame"; gesture := ""; inflection := ""; actions := [] |}
           (initialTalentPoints 1)); vm_compute; reflexivity.
Defined.

End TalentsFacts.

Module SpellFacts.
Import Spell.
Local Open Scope Z_scope.

(** Claim C8: the prepared cost is the gesture's cost plus the
    inflection's action and focus cost; in [_prepareForActor], the blood
    magic talent turns the whole focus cost into a health cost of 10 per
    focus point with focus 0; the cost so obtained is kept as [_trueCost],
    and unless the spell is COMPOSED the shown action and focus cost are 0.
    The statement holds whatever the inherited [_prepareForActor] does. *)
Lemma prepareForActor_cost (super : CrucibleSpell -> CrucibleSpell)
    (a : ActorCtx) (s : CrucibleSpell) :
  (action (prepareCost s) = action (gcost (gesture s)) +
       match inflection s with Some i => action (icost i) | None => 0 end /\
   focus (prepareCost s) = focus (gcost (gesture s)) +
       match inflection s with Some i => focus (icost i) | None => 0 end) /\
  (let s1 := prepareGesture a (super s) in
   let c := cost s1 in
   let blood := has (talentIds a) "bloodmagic000000" in
   let tc := {| action := action c;
                focus := if blood then 0 else focus c;
                health := if blood then Some (10 * focus c) else health c |} in
   let r := prepareForActor super a s in
   trueCost r = Some tc /\
   cost r = (if Z.eqb (composition s1) COMPOSED then tc
             else {| action := 0; focus := 0; health := health tc |})).
Proof.
  split.
  - unfold prepareCost. destruct (inflection s); simpl; split; lia.
  - simpl. unfold prepareForActor.
    set (s1 := prepareGesture a (super s)).
    destruct s1 as [g i k [ca cf ch] tc0]; simpl.
    destruct (has (talentIds a) "bloodmagic000000"); simpl;
      destruct (Z.eqb k COMPOSED); simpl; split; try reflexivity;
      rewrite Z.mul_comm; reflexivity.
Qed.

End SpellFacts.

Module StandardizeFacts.
Import Standardize.

(** Claim C9 (code_bug): two world items named "Iron Sword" with ids that
    are not yet standard both map to ["ironsword0000000"]; the conflict
    check only looks at the ids already in the world, so no error is
    raised, both originals are queued for deletion (deleted before the
    creations run) and two creations with the same id are queued. *)
Lemma standardize_colliding_names_deletes_both :
  let world := [ {| id := "aB3dE5gH7jK9mN1p"; name := "Iron Sword" |};
                 {| id := "qR2sT4uV6wX8yZ0a"; name := "Iron Sword" |} ] in
  standardizeItemIds world =
    Commit ["aB3dE5gH7jK9mN1p"; "qR2sT4uV6wX8yZ0a"]
           [ {| id := "ironsword0000000"; name := "Iron Sword" |};
             {| id := "ironsword0000000"; name := "Iron Sword" |} ] /\
  after_deletions world (standardizeItemIds world) = [].
Proof. split; vm_compute; reflexivity. Qed.

End StandardizeFacts.

Module SkillsFacts.
Import Skills.
Local Open Scope Z_scope.

(** [canPurchaseSkill] in strict and non-strict mode agree on when a
    purchase is allowed; strict mode returns [false] only for a missing
    skill or a zero delta, and throws in every other refusal. *)
Lemma canPurchaseSkill_strict_agrees (a : SkillActor) (skillId : string) (delta : Z) :
  (canPurchaseSkill a skillId delta false = Ret true <->
   canPurchaseSkill a skillId delta true = Ret true) /\
  (canPurchaseSkill a skillId delta true = Ret false <->
   skills a skillId = None \/ Z.sgn delta = 0).
Proof.
  unfold canPurchaseSkill, fail.
  destruct (skills a skillId) as [s|]; [|split; [tauto|split; [by left|done]]].
  destruct (Z.sgn delta =? 0) eqn:E0.
  { apply Z.eqb_eq in E0. split; [tauto|split; [by right|done]]. }
  apply Z.eqb_neq in E0.
  destruct (ancestry a) as [an|], (background a) as [bg|];
    repeat match goal with
    | |- context [if ?b then _ else _] => destruct b
    end;
    split; split; intros H; try discriminate; try done;
    destruct H as [H|H]; congruence.
Qed.

(** Every rank [purchaseSkill] writes stays in [[0, 5]] when the current
    rank does, and differs from it by at most one. *)
Lemma purchaseSkill_rank_bounds (a : SkillActor) (skillId : string) (delta : Z)
    (s : Skill) (r : Z) (c : bool)
    (Hs : skills a skillId = Some s) (Hr : 0 <= rank s <= 5)
    (Hp : purchaseSkill a skillId delta = Update r c) :
  0 <= r <= 5 /\ Z.abs (r - rank s) <= 1.
Proof.
  unfold purchaseSkill in Hp. rewrite Hs in Hp.
  unfold canPurchaseSkill, fail in Hp. rewrite Z.sgn_sgn, Hs in Hp.
  pose proof (Z.sgn_spec delta).
  destruct (Z.sgn delta =? 0) eqn:E0.
  { apply Z.eqb_eq in E0. rewrite E0 in Hp. injection Hp as <- _. lia. }
  apply Z.eqb_neq in E0.
  destruct (ancestry a) as [an|], (background a) as [bg|]; try discriminate;
    repeat match goal with
    | H : context [if ?b then _ else _] |- _ => destruct b eqn:?
    end; try discriminate;
    injection Hp as <- _;
    repeat match goal with H : (_ =? _) = _ |- _ => first [apply Z.eqb_eq in H | apply Z.eqb_neq in H] end;
    repeat match goal with H : (_ <? _) = _ |- _ => first [apply Z.ltb_lt in H | apply Z.ltb_ge in H] end;
    lia.
Qed.

Lemma purchaseSkill_rank_bounds_witness :
  let a := {| skills := fun _ => Some {| rank := 2; path := ""; cost := 1 |};
              ancestry := Some "human"; background := Some "soldier"; skillAvailable := 3 |} in
  purchaseSkill a "athletics" 1 = Update 3 true /\ 0 <= 3 <= 5 /\ Z.abs (3 - 2) <= 1.
Proof.
  intros a. split; [reflexivity|].
  exact (purchaseSkill_rank_bounds a "athletics" 1 _ 3 true eq_refl ltac:(simpl; lia) eq_refl).
Defined.

(** A zero delta passes the strict check (it returns [false] without
    throwing), so [purchaseSkill(id, 0)] on a rank 3 skill issues an
    update that keeps the rank and resets the chosen path to [null]. *)
Lemma purchaseSkill_zero_delta_clears_path (a : SkillActor) (skillId : string) (s : Skill)
    (Hs : skills a skillId = Some s) (H3 : rank s = 3) :
  purchaseSkill a skillId 0 = Update 3 true.
Proof.
  unfold purchaseSkill, canPurchaseSkill. simpl. rewrite Hs. simpl.
  rewrite H3. reflexivity.
Qed.

Lemma purchaseSkill_zero_delta_clears_path_witness :
  let a := {| skills := fun _ => Some {| rank := 3; path := "athletics.acrobat"; cost := 4 |};
              ancestry := Some "human"; background := Some "soldier"; skillAvailable := 0 |} in
  purchaseSkill a "athletics" 0 = Update 3 true.
Proof.
  intros a. exact (purchaseSkill_zero_delta_clears_path a "athletics" _ eq_refl eq_refl).
Defined.

(** [purchaseSkill] raises a rank only when the ancestry and background
    are named, the rank is below 5, a path is chosen at rank 3 and the
    available skill points cover the cost. *)
Lemma purchaseSkill_increase_requires (a : SkillActor) (skillId : string) (delta : Z)
    (s : Skill) (r : Z) (c : bool)
    (Hs : skills a skillId = Some s) (Hd : 0 < delta)
    (Hp : purchaseSkill a skillId delta = Update r c) :
  r = rank s + 1 /\
  (exists an bg, ancestry a = Some an /\ background a = Some bg /\
     Talents.truthy an = true /\ Talents.truthy bg = true) /\
  rank s <> 5 /\ (rank s = 3 -> Talents.truthy (path s) = true) /\
  cost s <= skillAvailable a.
Proof.
  unfold purchaseSkill in Hp. rewrite Hs in Hp.
  unfold canPurchaseSkill, fail in Hp. rewrite Z.sgn_sgn, Hs in Hp.
  assert (Hsg : Z.sgn delta = 1) by (apply Z.sgn_pos; lia).
  rewrite Hsg in Hp. simpl in Hp.
  destruct (ancestry a) as [an|], (background a) as [bg|]; try discriminate.
  - destruct (Talents.truthy an) eqn:Ea, (Talents.truthy bg) eqn:Eb; simpl in Hp; try discriminate.
    destruct (rank s =? 5) eqn:E5; [discriminate|].
    destruct (rank s =? 3) eqn:E3, (Talents.truthy (path s)) eqn:Ep; simpl in Hp; try discriminate;
    destruct (skillAvailable a <? cost s) eqn:Ec; try discriminate;
    injection Hp as <- _; apply Z.eqb_neq in E5; apply Z.ltb_ge in Ec;
    (split; [lia|]); (split; [eauto 7|]); (split; [done|]); (split; [|lia]);
    intros H3; try done; apply Z.eqb_neq in E3; lia.
  - destruct (Talents.truthy an); discriminate.
Qed.

Lemma purchaseSkill_increase_requires_witness :
  let a := {| skills := fun _ => Some {| rank := 3; path := "athletics.acrobat"; cost := 4 |};
              ancestry := Some "human"; background := Some "soldier"; skillAvailable := 5 |} in
  purchaseSkill a "athletics" 1 = Update 4 false /\ 3 <> 5 /\ 4 <= 5.
Proof.
  intros a. split; [reflexivity|].
  destruct (purchaseSkill_increase_requires a "athletics" 1 _ 4 false eq_refl ltac:(lia) eq_refl)
    as (_ & _ & H5 & _ & Hc).
  split; [exact H5|exact Hc].
Defined.

End SkillsFacts.

Module AbilityPurchaseFacts.
Import Ability AbilityPurchase.
Local Open Scope Z_scope.

(** At level 0 [purchaseAbility] only writes the base score, and keeps it
    in [[0, 3]] when it starts there. *)
Lemma purchaseAbility_L0_base_bounds (actor : Actor) (ability : string) (delta : Z)
    (x : AbilityData) (HL0 : isL0 actor = true)
    (Ha : abilities actor ability = Some x) (Hb : 0 <= base x <= 3) :
  (forall v, purchaseAbility actor ability delta = SetBase v -> 0 <= v <= 3) /\
  (forall v, purchaseAbility actor ability delta <> SetIncreases v).
Proof.
  unfold purchaseAbility, canPurchaseAbility. rewrite Ha, Z.sgn_sgn, HL0.
  pose proof (Z.sgn_spec delta).
  destruct (Z.sgn delta =? 0) eqn:E0; [split; intros; discriminate|].
  apply Z.eqb_neq in E0.
  destruct (0 <? Z.sgn delta) eqn:Ep, (base x =? 3) eqn:E3, (js_not (pool actor)),
    (Z.sgn delta <? 0) eqn:En, (base x =? 0) eqn:Ez; simpl;
    split; intros v Hv; try discriminate; injection Hv as <-;
    rewrite ?Z.ltb_lt, ?Z.ltb_ge, ?Z.eqb_eq, ?Z.eqb_neq in *; lia.
Qed.

Lemma purchaseAbility_L0_base_bounds_witness :
  let actor := {| level := 0;
                  abilities := fun _ => Some {| base := 2; value := 2; increases := 0 |};
                  pool := 4; available := 0 |} in
  purchaseAbility actor "strength" 1 = SetBase 3 /\ 0 <= 3 <= 3.
Proof.
  intros actor. split; [reflexivity|].
  apply (proj1 (purchaseAbility_L0_base_bounds actor "strength" 1 _ eq_refl eq_refl
           ltac:(simpl; lia))).
  reflexivity.
Defined.

(** Above level 0 [purchaseAbility] never writes the base score, only the
    increases: one step at a time, never below 0 when they start at 0 or
    more, and it raises only a score below 12 with ability points
    available. *)
Lemma purchaseAbility_regular (actor : Actor) (ability : string) (delta : Z)
    (x : AbilityData) (HL0 : isL0 actor = false)
    (Ha : abilities actor ability = Some x) (Hi : 0 <= increases x) :
  (forall v, purchaseAbility actor ability delta <> SetBase v) /\
  (forall v, purchaseAbility actor ability delta = SetIncreases v ->
   0 <= v /\
   ((v = increases x + 1 /\ 0 < delta /\ value x <> 12 /\ available actor <> 0) \/
    (v = increases x - 1 /\ delta < 0))).
Proof.
  split.
  - intros v Hp. unfold purchaseAbility in Hp. rewrite Ha, HL0 in Hp.
    destruct (Z.sgn delta =? 0); [discriminate|].
    destruct (canPurchaseAbility actor ability (Z.sgn delta)) as [[|]|]; discriminate.
  - intros v Hp.
    unfold purchaseAbility, canPurchaseAbility in Hp. rewrite Ha, Z.sgn_sgn, HL0 in Hp.
    pose proof (Z.sgn_spec delta).
    destruct (Z.sgn delta =? 0) eqn:E0; [discriminate|].
    apply Z.eqb_neq in E0. unfold js_not in Hp.
    destruct (0 <? Z.sgn delta) eqn:Ep, (value x =? 12) eqn:E12, (available actor =? 0) eqn:Eav,
      (Z.sgn delta <? 0) eqn:En, (increases x =? 0) eqn:Ez; simpl in Hp;
      try discriminate; injection Hp as <-;
      rewrite ?Z.ltb_lt, ?Z.ltb_ge, ?Z.eqb_eq, ?Z.eqb_neq in *; lia.
Qed.

Lemma purchaseAbility_regular_witness :
  let actor := {| level := 3;
                  abilities := fun _ => Some {| base := 3; value := 5; increases := 2 |};
                  pool := 0; available := 1 |} in
  purchaseAbility actor "dexterity" 1 = SetIncreases 3 /\ 0 <= 3 /\
  purchaseAbility actor "dexterity" 1 <> SetBase 4.
Proof.
  intros actor.
  destruct (purchaseAbility_regular actor "dexterity" 1 _ eq_refl eq_refl
              ltac:(simpl; lia)) as [Hb Hs].
  split; [reflexivity|]. split.
  - exact (proj1 (Hs 3 eq_refl)).
  - exact (Hb 4).
Defined.

End AbilityPurchaseFacts.

Module BoonsFacts.
Import Boons.
Local Open Scope Z_scope.

(** [getTargetBoons] grants at most 3 boons and 2 banes; banes only come
    from a physical defense. *)
Lemma getTargetBoons_bounds (self : Attacker) (target : Target) (defenseType : defenseArg) :
  0 <= fst (getTargetBoons self target defenseType) <= 3 /\
  0 <= snd (getTargetBoons self target defenseType) <= 2 /\
  (defenseType <> DStr "physical" ->
   snd (getTargetBoons self target defenseType) = 0 /\
   fst (getTargetBoons self target defenseType) <= 1).
Proof.
  unfold getTargetBoons.
  destruct defenseType as [s|];
    [destruct (bool_decide (s = "physical")) eqn:Es;
     [apply bool_decide_eq_true in Es; subst|]|];
    repeat match goal with
    | |- context [if ?b then _ else _] => destruct b
    end; simpl; (split; [lia|]); (split; [lia|]); intros Hne; try congruence; lia.
Qed.

(** A weapon attack passes an object as the defense type, so the target's
    exposed and guarded statuses never count: the statuses do not change
    the result, and there are no banes. *)
Lemma weapon_attack_boons_ignore_statuses (self : Attacker) (target : Target)
    (statuses' : list string) :
  getTargetBoons self target WeaponAttack.attackBoonsArg =
  getTargetBoons self {| statuses := statuses'; targetTalents := targetTalents target;
                         shield := shield target;
                         targetInitiative := targetInitiative target |}
    WeaponAttack.attackBoonsArg /\
  snd (getTargetBoons self target WeaponAttack.attackBoonsArg) = 0.
Proof. split; reflexivity. Qed.

End BoonsFacts.

Module WeaponAttackFacts.
Import Defense WeaponAttack.
Local Open Scope Q_scope.

(** A weapon attack goes on to compute damage exactly when the defense is
    physical and the roll is not a critical failure: the physical test
    always ends in [DEFLECT], and the other defenses give [EFFECTIVE] or
    [RESIST], which are neither [HIT] nor [DEFLECT]. *)
Lemma resolveAttack_damage (d : Defenses) (defenseType : string) (rollTotal rnd : Q)
    (critFail : bool) (r : result) (dmg : bool)
    (H : resolveAttack d defenseType rollTotal rnd critFail = Some (r, dmg)) :
  dmg = true <-> defenseType = "physical" /\ critFail = false.
Proof.
  unfold resolveAttack in H.
  destruct (bool_decide (defenseType = "physical")) eqn:Ep.
  - apply bool_decide_eq_true in Ep. subst. simpl in H. injection H as <- <-.
    destruct critFail; simpl; intuition congruence.
  - apply bool_decide_eq_false in Ep.
    assert (Ht : forall x, testDefense d defenseType rollTotal JUndef rnd = Some x ->
                           x = EFFECTIVE \/ x = RESIST).
    { unfold testDefense. rewrite bool_decide_false by done.
      intros x Hx. repeat case_match; simplify_eq; auto. }
    destruct (testDefense d defenseType rollTotal JUndef rnd) as [x|]; [|discriminate].
    injection H as <- <-. destruct (Ht x eq_refl) as [->| ->]; simpl;
      (split; [discriminate|intros [? _]; contradiction]).
Qed.

Lemma resolveAttack_damage_witness :
  let d := {| physical := {| total := 12 |}; dodge := {| total := 3 |};
              parry := {| total := 2 |}; block := {| total := 1 |};
              others := fun _ => Some {| total := 10 |} |} in
  resolveAttack d "physical" 5 (1#3) false = Some (DEFLECT, true) /\
  (true = true <-> "physical" = "physical" /\ false = false).
Proof.
  intros d. split; [reflexivity|].
  exact (resolveAttack_damage d "physical" 5 (1#3) false DEFLECT true eq_refl).
Defined.

End WeaponAttackFacts.

Module DamageFacts.
Import Damage.
Local Open Scope Z_scope.

Lemma obj_add_sum (o : obj) (k : string) (x : Z) : obj_sum (obj_add o k x) = obj_sum o + x.
Proof.
  unfold obj_sum, zsum. induction o as [|[k' v] o IH]; simpl; [lia|].
  case_bool_decide; simpl; rewrite ?IH; lia.
Qed.

Lemma obj_add_keys (o : obj) (k : string) (x : Z) :
  map fst (obj_add o k x) = if bool_decide (k ∈ map fst o) then map fst o else map fst o ++ [k].
Proof.
  induction o as [|[k' v] o IH]; [done|]. cbn [obj_add].
  destruct (decide (k = k')) as [->|Hk].
  - rewrite (bool_decide_true (k' = k')) by done. simpl.
    by rewrite bool_decide_true by set_solver.
  - rewrite (bool_decide_false (k = k')) by done. simpl. rewrite IH.
    rewrite (bool_decide_ext (k ∈ k' :: map fst o) (k ∈ map fst o)) by set_solver.
    by case_bool_decide.
Qed.

Lemma obj_add_nodup (o : obj) (k : string) (x : Z) :
  NoDup (map fst o) -> NoDup (map fst (obj_add o k x)).
Proof.
  intros Hnd. rewrite obj_add_keys. case_bool_decide as Hk; [done|].
  apply NoDup_app. split; [done|]. split; [|apply NoDup_singleton].
  intros y Hy Hy'. apply list_elem_of_singleton in Hy'. subst. done.
Qed.

Lemma obj_add_lookup (o : obj) (k k' : string) (x : Z) :
  obj_lookup (obj_add o k x) k' = obj_lookup o k' + (if bool_decide (k = k') then x else 0).
Proof.
  unfold obj_lookup, zsum. induction o as [|[k0 v] o IH].
  - simpl. rewrite filter_cons. simpl.
    destruct (decide (k = k')) as [E|E];
      [subst; rewrite bool_decide_true by done|rewrite bool_decide_false by done]; simpl; lia.
  - cbn [obj_add]. destruct (decide (k = k0)) as [E0|E0].
    + subst k0. rewrite (bool_decide_true (k = k)) by done. rewrite !filter_cons. simpl.
      destruct (decide (k = k')) as [E|E];
        [rewrite bool_decide_true by done|rewrite bool_decide_false by done]; simpl; lia.
    + rewrite (bool_decide_false (k = k0)) by done. rewrite !filter_cons. simpl.
      destruct (decide (k0 = k')) as [E|E]; simpl; rewrite IH; lia.
Qed.

Lemma key_in (o : obj) (k : string) (v : Z) : (k, v) ∈ o -> k ∈ map fst o.
Proof.
  induction o as [|[k1 v1] o IH]; simpl; intros Hin; [set_solver|].
  apply elem_of_cons in Hin as [Heq|Hin]; [injection Heq as -> ->; set_solver|].
  apply elem_of_cons. right. by apply IH.
Qed.

Lemma filter_key_nil (o : obj) (k : string) :
  k ∉ map fst o -> filter (fun kv => kv.1 = k) o = [].
Proof.
  induction o as [|[k1 v1] o IH]; simpl; intros Hk; [done|].
  rewrite filter_cons. simpl. rewrite decide_False by set_solver. apply IH. set_solver.
Qed.

Lemma obj_lookup_elem (o : obj) (k : string) (v : Z) :
  NoDup (map fst o) -> (k, v) ∈ o -> obj_lookup o k = v.
Proof.
  unfold obj_lookup, zsum. induction o as [|[k0 v0] o IH]; intros Hnd Hin; [set_solver|].
  simpl in Hnd. apply NoDup_cons in Hnd as [Hk0 Hnd].
  rewrite filter_cons. simpl.
  apply elem_of_cons in Hin as [Heq|Hin].
  - injection Heq as -> ->. rewrite decide_True by done. simpl.
    rewrite filter_key_nil by done. simpl. lia.
  - assert (k <> k0) by (intros ->; by apply Hk0, (key_in o k0 v)).
    rewrite decide_False by done. by apply IH.
Qed.

Lemma foldl_subtract (o : obj) (t : Z) :
  foldl (fun t kv => t - snd kv) t o = t - obj_sum o.
Proof.
  unfold obj_sum, zsum. revert t. induction o as [|[k v] o IH]; intros t; simpl; [lia|].
  rewrite IH. lia.
Qed.

Lemma deal_step_resources (direction : Z) (acc : obj * bool * bool) (roll : AttackRoll) :
  (deal_step direction acc roll).1.1 =
  obj_add acc.1.1 (rollResource roll) (signed roll * direction).
Proof.
  destruct acc as [[o c] f]. unfold deal_step, rollResource, signed.
  by destruct (isCriticalSuccess roll), (isCriticalFailure roll).
Qed.

Lemma deal_loop_resources (direction : Z) (rolls : list AttackRoll) (acc : obj * bool * bool) :
  (foldl (deal_step direction) acc rolls).1.1 =
  foldl (fun o roll => obj_add o (rollResource roll) (signed roll * direction)) acc.1.1 rolls.
Proof.
  revert acc. induction rolls as [|roll rolls IH]; intros acc; simpl; [done|].
  by rewrite IH, deal_step_resources.
Qed.

Lemma dealDamage_resources_eq (rolls : list AttackRoll) (reverse : bool) :
  resources (dealDamage rolls reverse) =
  foldl (fun o roll => obj_add o (rollResource roll) (signed roll * (if reverse then 1 else -1)))
    [] rolls.
Proof.
  unfold dealDamage.
  pose proof (deal_loop_resources (if reverse then 1 else -1) rolls ([], false, false)) as H.
  destruct (foldl _ _ rolls) as [[o c] f]. simpl in *. done.
Qed.

Lemma dealDamage_total_eq (rolls : list AttackRoll) (reverse : bool) :
  total (dealDamage rolls reverse) = 0 - obj_sum (resources (dealDamage rolls reverse)).
Proof.
  unfold dealDamage. destruct (foldl _ _ rolls) as [[o c] f]. simpl.
  apply foldl_subtract.
Qed.

(** The total of [dealDamage] is the sum of the rolls' damage totals, a
    healing roll counted negative, whichever resources they hit; reversing
    the damage negates it. *)
Lemma dealDamage_total (rolls : list AttackRoll) (reverse : bool) :
  total (dealDamage rolls reverse) =
  (if reverse then -1 else 1) * zsum signed rolls.
Proof.
  rewrite dealDamage_total_eq, dealDamage_resources_eq.
  set (dir := if reverse then 1 else -1).
  assert (H : forall o, obj_sum (foldl (fun o roll => obj_add o (rollResource roll)
                                          (signed roll * dir)) o rolls) =
                        obj_sum o + dir * zsum signed rolls).
  { induction rolls as [|roll rolls IH]; intros o; simpl; [lia|].
    rewrite IH, obj_add_sum. lia. }
  rewrite H. unfold dir. simpl. destruct reverse; lia.
Qed.

(** The changes [dealDamage] hands to [alterResources] name each resource
    once, exactly the resources some roll targets (["health"] by default),
    and each change is the signed sum of the damage aimed at it, times the
    direction ([-1], or [1] when reversing). *)
Lemma dealDamage_resources (rolls : list AttackRoll) (reverse : bool) :
  let o := resources (dealDamage rolls reverse) in
  NoDup (map fst o) /\
  (forall k, k ∈ map fst o <-> exists roll, roll ∈ rolls /\ rollResource roll = k) /\
  (forall k v, (k, v) ∈ o ->
     v = (if reverse then 1 else -1) *
         zsum signed (filter (fun roll => rollResource roll = k) rolls)).
Proof.
  intros o. subst o. rewrite dealDamage_resources_eq.
  set (dir := if reverse then 1 else -1).
  set (f := fun o roll => obj_add o (rollResource roll) (signed roll * dir)).
  assert (Hinv : forall o, NoDup (map fst o) ->
    NoDup (map fst (foldl f o rolls)) /\
    (forall k, k ∈ map fst (foldl f o rolls) <->
       k ∈ map fst o \/ exists roll, roll ∈ rolls /\ rollResource roll = k) /\
    (forall k, obj_lookup (foldl f o rolls) k =
       obj_lookup o k + dir * zsum signed
                                (filter (fun roll => rollResource roll = k) rolls))).
  { induction rolls as [|roll rolls IH]; intros o Hnd; simpl.
    - split; [done|]. split; [intros k; split; [tauto|]; intros [?|(? & ? & _)]; [done|set_solver]|].
      intros k. simpl. lia.
    - destruct (IH (f o roll)) as (H1 & H2 & H3); [by apply obj_add_nodup|].
      split; [done|]. split.
      + intros k. rewrite H2. unfold f. rewrite obj_add_keys.
        case_bool_decide; rewrite ?elem_of_app, ?list_elem_of_singleton; split.
        * intros [?|(r & ? & ?)]; [by left|right; exists r; set_solver].
        * intros [?|(r & Hr & <-)]; [by left|].
          apply elem_of_cons in Hr as [->|Hr]; [by left|right; eauto].
        * intros [[?|?]|(r & ? & ?)]; [by left|subst; right; exists roll; set_solver|
                                       right; exists r; set_solver].
        * intros [?|(r & Hr & <-)]; [by left; left|].
          apply elem_of_cons in Hr as [->|Hr]; [by left; right|right; eauto].
      + intros k. rewrite H3. unfold f. rewrite obj_add_lookup, filter_cons.
        case_bool_decide; case_decide; simpl; try congruence; lia. }
  destruct (Hinv [] (NoDup_nil_2)) as (H1 & H2 & H3).
  split; [done|]. split.
  - intros k. rewrite H2. simpl. rewrite elem_of_nil. tauto.
  - intros k v Hin. rewrite <- (obj_lookup_elem _ k v H1 Hin), H3. unfold obj_lookup, zsum. simpl.
    fold dir. lia.
Qed.

Lemma dot_damage_spec (ids : list string) (res : string -> option Z) (dt : Dot)
    (dmg : obj) (r : string) (x : Z) :
  dot_damage ids res dt = Some dmg -> (r, x) ∈ dmg ->
  exists v rt, r ∈ ids /\ amounts dt r = Some v /\ res (damageType dt) = Some rt /\
    x = 0 - clamped (v - rt) 0 (2 * v).
Proof.
  revert dmg. induction ids as [|i ids IH]; intros dmg Hd Hin; simpl in Hd.
  - injection Hd as <-. set_solver.
  - destruct (amounts dt i) as [v|] eqn:Ev.
    + destruct (res (damageType dt)) as [rt|] eqn:Er; [|discriminate].
      destruct (dot_damage ids res dt) as [o|] eqn:Eo; [|discriminate].
      injection Hd as <-. apply elem_of_cons in Hin as [Heq|Hin].
      * injection Heq as -> ->. exists v, rt. set_solver.
      * destruct (IH o eq_refl Hin) as (v' & rt' & ? & ? & ? & ?). exists v', rt'. set_solver.
    + destruct (IH dmg Hd Hin) as (v' & rt' & ? & ? & ? & ?). exists v', rt'. set_solver.
Qed.

(** Every change requested by [applyDamageOverTime] for a resource [r]
    is [-clamped(v - res, 0, 2v)], where [v] is the amount of some effect's
    [dot] for [r] and [res] the actor's resistance to that [dot]'s damage
    type. It lies in [[-2v, 0]] when [v] is not negative, so a
    damage-over-time effect never heals. *)
Lemma applyDamageOverTime_bounds (ids : list string) (res : string -> option Z)
    (effects : list Effect) (calls : list (string * obj)) (lbl : string) (dmg : obj)
    (r : string) (x : Z)
    (Hrun : applyDamageOverTime ids res effects = Some calls)
    (Hc : (lbl, dmg) ∈ calls) (Hx : (r, x) ∈ dmg) :
  exists e dt v rt, e ∈ effects /\ dot e = Some dt /\ label e = lbl /\
    amounts dt r = Some v /\ res (damageType dt) = Some rt /\
    x = 0 - clamped (v - rt) 0 (2 * v) /\
    (0 <= v -> - (2 * v) <= x <= 0).
Proof.
  revert calls Hrun Hc. induction effects as [|e es IH]; intros calls Hrun Hc; simpl in Hrun.
  - injection Hrun as <-. set_solver.
  - destruct (dot e) as [dt|] eqn:Ed.
    + destruct (dot_damage ids res dt) as [[|kv o]|] eqn:Edd; try discriminate.
      * injection Hrun as <-. set_solver.
      * destruct (applyDamageOverTime ids res es) as [cs|] eqn:Ecs; [|discriminate].
        injection Hrun as <-. apply elem_of_cons in Hc as [Heq|Hc].
        -- injection Heq as Hl Hdm. subst lbl dmg.
           destruct (dot_damage_spec _ _ _ _ _ _ Edd Hx) as (v & rt & _ & Hv & Hrt & ->).
           exists e, dt, v, rt. split; [set_solver|]. do 5 (split; [done|]).
           intros Hv0. unfold clamped. lia.
        -- destruct (IH cs eq_refl Hc) as (e' & dt' & v & rt & ? & ?).
           exists e', dt', v, rt. set_solver.
    + destruct (IH calls Hrun Hc) as (e' & dt' & v & rt & ? & ?). exists e', dt', v, rt. set_solver.
Qed.

Lemma applyDamageOverTime_bounds_witness :
  let dt := {| amounts := fun r => if bool_decide (r = "health") then Some 6 else None;
               damageType := "fire" |} in
  let e := {| dot := Some dt; label := "Burning" |} in
  applyDamageOverTime ["health"; "morale"] (fun _ => Some 2) [e] = Some [("Burning", [("health", -4)])] /\
  exists e' dt' v rt, e' ∈ [e] /\ dot e' = Some dt' /\ label e' = "Burning" /\
    amounts dt' "health" = Some v /\ (fun _ => Some 2) (damageType dt') = Some rt /\
    -4 = 0 - clamped (v - rt) 0 (2 * v) /\ (0 <= v -> - (2 * v) <= -4 <= 0).
Proof.
  intros dt e. split; [vm_compute; reflexivity|].
  exact (applyDamageOverTime_bounds ["health"; "morale"] (fun _ => Some 2) [e]
           [("Burning", [("health", -4)])] "Burning" [("health", -4)] "health" (-4)
           eq_refl ltac:(set_solver) ltac:(set_solver)).
Defined.

(** An effect whose [dot] flag names none of the resources ends
    [applyDamageOverTime] ([return], not [continue]): the effects after it
    are never applied. *)
Lemma applyDamageOverTime_stops (ids : list string) (res : string -> option Z)
    (es1 es2 : list Effect) (e : Effect) (dt : Dot)
    (Hd : dot e = Some dt) (He : dot_damage ids res dt = Some []) :
  applyDamageOverTime ids res (es1 ++ e :: es2) = applyDamageOverTime ids res (es1 ++ [e]).
Proof.
  induction es1 as [|e1 es1 IH]; simpl.
  - by rewrite Hd, He.
  - rewrite IH. reflexivity.
Qed.

Lemma applyDamageOverTime_stops_witness :
  let empty := {| amounts := fun _ => None; damageType := "fire" |} in
  let bleed := {| amounts := fun r => if bool_decide (r = "health") then Some 3 else None;
                  damageType := "piercing" |} in
  let e := {| dot := Some empty; label := "Smoulder" |} in
  let later := {| dot := Some bleed; label := "Bleeding" |} in
  applyDamageOverTime ["health"] (fun _ => Some 0) ([] ++ e :: [later]) =
  applyDamageOverTime ["health"] (fun _ => Some 0) ([] ++ [e]) /\
  applyDamageOverTime ["health"] (fun _ => Some 0) [later] = Some [("Bleeding", [("health", -3)])].
Proof.
  intros empty bleed e later. split; [|reflexivity].
  exact (applyDamageOverTime_stops ["health"] (fun _ => Some 0) [] [later] e empty eq_refl eq_refl).
Defined.

End DamageFacts.

Module KeyFacts.
Import Resources.

Lemma string_length_app (a s : string) :
  String.length (a +:+ s) = String.length a + String.length s.
Proof. induction a as [|c a IH]; simpl; [done|]. by rewrite IH. Qed.

Lemma string_app_cancel_r (a b s : string) : (a +:+ s = b +:+ s)%string -> a = b.
Proof.
  revert b. induction a as [|c a IH]; intros b H; destruct b as [|c' b]; simpl in H.
  - done.
  - exfalso. apply (f_equal String.length) in H. simpl in H.
    rewrite !string_length_app in H. simpl in H. lia.
  - exfalso. apply (f_equal String.length) in H. simpl in H.
    rewrite !string_length_app in H. simpl in H. lia.
  - injection H as -> H. f_equal. by apply IH.
Qed.

(** Update keys of distinct resources are distinct. *)
Lemma key_inj (a b : string) : key a = key b -> a = b.
Proof.
  unfold key. intros H. apply (inj (String.app "system.resources.")) in H.
  by apply string_app_cancel_r in H.
Qed.

End KeyFacts.

Module AdvancementFacts.
Import Resources Advancement KeyFacts.
Local Open Scope Z_scope.

Lemma rest_fold_none (cfgType : string -> option string) (l : list (string * Resource)) :
  foldl (rest_step cfgType) None l = None.
Proof. induction l; simpl; done. Qed.

Lemma rest_fold (cfgType : string -> option string) (l : list (string * Resource))
    (acc : option updates_t) (u' : updates_t) :
  NoDup l.*1 ->
  foldl (rest_step cfgType) acc l = Some u' ->
  exists u, acc = Some u /\
    (forall id p, (id, p) ∈ l -> exists ty, cfgType id = Some ty /\ u' !! key id = Some (if bool_decide (ty = "reserve") then 0 else max p)) /\
    (forall k, (forall id, id ∈ l.*1 -> k <> key id) -> u' !! k = u !! k).
Proof.
  revert acc. induction l as [|[id p] l IH]; intros acc Hnd Hf; simpl in Hf.
  - subst acc. exists u'. split; [done|]. split; [intros ? ? Hin; by apply elem_of_nil in Hin|done].
  - simpl in Hnd. apply NoDup_cons in Hnd as [Hid Hnd].
    destruct acc as [u|]; [|by rewrite rest_fold_none in Hf].
    unfold rest_step in Hf at 2. simpl in Hf. destruct (cfgType id) as [ty|] eqn:Ety; [|by rewrite rest_fold_none in Hf].
    destruct (IH _ Hnd Hf) as (u1 & Hu1 & Hin & Hout). injection Hu1 as <-.
    exists u. split; [done|]. split.
    + intros id' p' Hm. apply elem_of_cons in Hm as [Heq|Hm].
      * injection Heq as -> ->. exists ty. split; [done|].
        rewrite Hout; [by rewrite lookup_insert_eq|].
        intros id'' Hid'' Hk. apply key_inj in Hk. subst. done.
      * by apply Hin.
    + intros k Hk. rewrite Hout.
      * rewrite lookup_insert_ne; [done|]. intros Heq. apply (Hk id); [set_solver|done].
      * intros id'' Hid''. apply Hk. set_solver.
Qed.

(** When [rest] writes an update, the wounds and madness pools were not
    full, every resource pool gets its value key (0 for a reserve pool,
    its maximum otherwise), and no other key is written. *)
Lemma rest_restores (cfgType : string -> option string) (r : pools) (u : updates_t)
    (H : rest cfgType r = Some (RestUpdate u)) :
  (exists w m, r !! "wounds" = Some w /\ value w <> max w /\
               r !! "madness" = Some m /\ value m <> max m) /\
  (forall id p, r !! id = Some p ->
     exists ty, cfgType id = Some ty /\
       u !! key id = Some (if bool_decide (ty = "reserve") then 0 else max p)) /\
  (forall k v, u !! k = Some v -> exists id p, k = key id /\ r !! id = Some p).
Proof.
  unfold rest in H.
  destruct (r !! "wounds") as [w|] eqn:Ew; [|discriminate].
  destruct (value w =? max w) eqn:Ew'; [discriminate|].
  destruct (r !! "madness") as [m|] eqn:Em; [|discriminate].
  destruct (value m =? max m) eqn:Em'; [discriminate|].
  destruct (getRestData cfgType r) as [u'|] eqn:Eg; [|discriminate].
  injection H as <-. apply Z.eqb_neq in Ew', Em'.
  unfold getRestData in Eg.
  destruct (rest_fold _ _ _ _ (NoDup_fst_map_to_list r) Eg) as (u0 & Hu0 & Hin & Hout).
  injection Hu0 as <-.
  split; [eauto 10|]. split.
  - intros id p Hp. apply Hin. by apply elem_of_map_to_list.
  - intros k v Hk. destruct (decide (k ∈ key <$> (map_to_list r).*1)) as [Hkin|Hno].
    + apply list_elem_of_fmap in Hkin as (id & -> & Hid).
      apply list_elem_of_fmap in Hid as ([id' p] & -> & Hm). apply elem_of_map_to_list in Hm.
      eauto.
    + rewrite Hout in Hk; [by rewrite lookup_empty in Hk|].
      intros id Hid ->. apply Hno. apply list_elem_of_fmap. eauto.
Qed.

Lemma rest_restores_witness :
  let r := <["health" := {| value := 3; max := 10 |}]>
           (<["wounds" := {| value := 4; max := 20 |}]>
           (<["madness" := {| value := 0; max := 12 |}]>
           (<["focus" := {| value := 1; max := 5 |}]> ∅))) in
  let cfg := fun id => if bool_decide (id = "focus") then Some "reserve" else Some "active" in
  exists u, rest cfg r = Some (RestUpdate u) /\
    exists ty, cfg "focus" = Some ty /\
      u !! key "focus" = Some (if bool_decide (ty = "reserve") then 0 else 5).
Proof.
  intros r cfg. eexists. split; [reflexivity|].
  refine (proj1 (proj2 (rest_restores cfg r _ eq_refl)) "focus" _ eq_refl).
Defined.

(** [levelUp] writes a level in [[0, 24]] (the old level plus [delta],
    clamped), resets the progress to 0 when advancing and to the next
    threshold when going down, and at level 0 only when the five
    character-creation steps are complete. *)
Lemma levelUp_update (a : LevelActor) (cfgType : string -> option string)
    (clonePools : Z -> pools) (cloneNext : Z -> Z) (delta l : Z) (u : updates_t) (p : Z)
    (H : levelUp a cfgType clonePools cloneNext delta = Some (LUpdate l u p)) :
  0 <= l <= 24 /\ l = clamped (level a + delta) 0 24 /\
  (0 < delta -> p = 0) /\ (delta < 0 -> p = cloneNext l) /\
  getRestData cfgType (clonePools l) = Some u /\
  (level a = 0 ->
     truthy_opt (ancestryName a) = true /\ truthy_opt (backgroundName a) = true /\
     requireInput a = false /\ skillAvailable a = 0 /\ talentAvailable a = 0).
Proof.
  unfold levelUp in H.
  destruct (delta =? 0) eqn:E0; [discriminate|]. apply Z.eqb_neq in E0.
  destruct ((level a =? 0) && _) eqn:Ew; [discriminate|].
  destruct (getRestData _ _) as [u'|] eqn:Eg; [|discriminate].
  injection H as <- <- <-.
  split; [unfold clamped; lia|]. split; [done|].
  split; [intros Hd; by rewrite (proj2 (Z.ltb_lt 0 delta) Hd)|].
  split; [intros Hd; by rewrite (proj2 (Z.ltb_ge 0 delta) ltac:(lia))|].
  split; [done|].
  intros Hl. rewrite Hl in Ew. simpl in Ew. apply negb_false_iff in Ew.
  unfold Ability.js_not in Ew. simpl in Ew.
  repeat match type of Ew with (?x && ?y) = true => apply andb_prop in Ew as [? Ew] end.
  repeat match goal with H : (_ =? _) = true |- _ => apply Z.eqb_eq in H end.
  repeat split; try done; by apply negb_true_iff.
Qed.

Lemma levelUp_update_witness :
  let a := {| level := 0; ancestryName := Some "human"; backgroundName := Some "soldier";
              requireInput := false; skillAvailable := 0; talentAvailable := 0 |} in
  let pools := fun _ : Z => <["health" := {| value := 0; max := 8 |}]> (∅ : Resources.pools) in
  levelUp a (fun _ => Some "active") pools (fun _ => 6) 1 =
    Some (LUpdate 1 (<[key "health" := 8]> ∅) 0) /\ 0 <= 1 <= 24.
Proof.
  intros a pools. split; [reflexivity|].
  exact (proj1 (levelUp_update a (fun _ => Some "active") pools (fun _ => 6) 1 1
                  (<[key "health" := 8]> ∅) 0 eq_refl)).
Defined.

End AdvancementFacts.

Module WeaponDataFacts.
Import Weapon WeaponData.
Local Open Scope Z_scope.

Lemma allowed_slots_nonempty (w : CrucibleWeapon) :
  exists s rest, getAllowedEquipmentSlots w = s :: rest.
Proof.
  unfold getAllowedEquipmentSlots.
  destruct (hands (category w) =? 2); [eauto|].
  destruct (off (category w)), (bool_decide ("versatile" ∈ properties w)); simpl; eauto.
Qed.

(** The prepared slot is always one the weapon allows: an allowed slot is
    kept, any other is replaced by the first allowed one. *)
Lemma prepareWeapon_slot (c : CategoryCfg) (quality enchantment : Tier)
    (props : string -> option PropCfg) (w : WeaponSrc) (p : Prepared)
    (H : prepareWeapon c quality enchantment props w = Some p) :
  pslot p ∈ getAllowedEquipmentSlots (weaponOf c w) /\
  (slot w ∈ getAllowedEquipmentSlots (weaponOf c w) -> pslot p = slot w) /\
  (slot w ∉ getAllowedEquipmentSlots (weaponOf c w) ->
   head (getAllowedEquipmentSlots (weaponOf c w)) = Some (pslot p)).
Proof.
  unfold prepareWeapon in H.
  destruct (prepareDamage c quality w) as [base qual].
  destruct (prepareDefense c enchantment w) as [blk par].
  destruct (foldl _ _ (wproperties w)) as [[cost rar]|]; [|discriminate].
  destruct (_ && _); injection H as <-; simpl;
    (case_bool_decide as Hs;
     [split; [done|split; [done|intros; contradiction]]|]);
    destruct (allowed_slots_nonempty (weaponOf c w)) as (s & rest & Heq); rewrite Heq in *;
    simpl; (split; [set_solver|split; [intros; contradiction|done]]).
Qed.

Lemma prepareWeapon_slot_witness :
  let c := {| cat := {| hands := 2; off := false |}; damageBase := 8; defBlock := None;
              defParry := None; catActionCost := 2 |} in
  let t := {| rarity := 0; bonus := 0 |} in
  let w := {| slot := MAINHAND; wproperties := []; broken := false; price := 30 |} in
  (exists p, prepareWeapon c t t (fun _ => None) w = Some p /\ pslot p = TWOHAND) /\
  TWOHAND ∈ getAllowedEquipmentSlots (weaponOf c w) /\
  head (getAllowedEquipmentSlots (weaponOf c w)) = Some TWOHAND.
Proof.
  intros c t w.
  destruct (prepareWeapon_slot c t t (fun _ => None) w _ eq_refl) as (Hin & _ & Hhd).
  split; [eexists; split; reflexivity|]. split; [exact Hin|].
  apply Hhd. apply (bool_decide_eq_false_1 _). vm_compute. reflexivity.
Defined.

(** A versatile one-handed weapon held in the two-hand slot gets 2 more
    base damage and costs 1 more action than the same weapon in the main
    hand. *)
Lemma prepareWeapon_versatile_twohand (c : CategoryCfg) (quality enchantment : Tier)
    (props : string -> option PropCfg) (w : WeaponSrc) (p2 : Prepared)
    (Hv : "versatile" ∈ wproperties w) (Hh : hands (cat c) <> 2)
    (H2 : prepareWeapon c quality enchantment props
            {| slot := MAINHAND; wproperties := wproperties w; broken := broken w;
               price := price w |} = Some p2) :
  exists p1,
    prepareWeapon c quality enchantment props
      {| slot := TWOHAND; wproperties := wproperties w; broken := broken w;
         price := price w |} = Some p1 /\
    pslot p2 = MAINHAND /\ pslot p1 = TWOHAND /\
    dmgBase p1 = dmgBase p2 + 2 /\ actionCost p1 = actionCost p2 + 1.
Proof.
  unfold prepareWeapon in *. unfold weaponOf, getAllowedEquipmentSlots in *. simpl in *.
  rewrite (proj2 (Z.eqb_neq _ _) Hh) in H2 |- *.
  rewrite (bool_decide_true ("versatile" ∈ wproperties w) Hv) in H2 |- *.
  unfold prepareDamage, prepareDefense in *. simpl in *.
  rewrite (bool_decide_true (MAINHAND ∈ _)) in H2
    by (destruct (off (cat c)); simpl; set_solver).
  rewrite (bool_decide_true (TWOHAND ∈ _))
    by (destruct (off (cat c)); simpl; set_solver).
  destruct (broken w), (bool_decide ("oversized" ∈ wproperties w)),
    (bool_decide ("parrying" ∈ wproperties w)), (bool_decide ("blocking" ∈ wproperties w));
    simpl in *;
    (destruct (foldl _ _ (wproperties w)) as [[cost rar]|]; [|discriminate]);
    injection H2 as <-;
    eexists; (split; [reflexivity|]); simpl; repeat split; lia.
Qed.

Lemma prepareWeapon_versatile_twohand_witness :
  let c := {| cat := {| hands := 1; off := false |}; damageBase := 6; defBlock := None;
              defParry := Some 1; catActionCost := 2 |} in
  let q := {| rarity := 0; bonus := 1 |} in
  let props := fun _ : string => Some {| propActionCost := 0; propRarity := 0 |} in
  let w := {| slot := 0; wproperties := ["versatile"]; broken := false; price := 20 |} in
  exists p1, prepareWeapon c q q props
      {| slot := TWOHAND; wproperties := ["versatile"]; broken := false; price := 20 |} = Some p1 /\
    dmgBase p1 = 8 /\ actionCost p1 = 3.
Proof.
  intros c q props w.
  destruct (prepareWeapon_versatile_twohand c q q props w _ ltac:(set_solver) ltac:(simpl; lia)
              eq_refl) as (p1 & Hp1 & _ & _ & Hb & Ha).
  exists p1. split; [exact Hp1|]. split; [exact Hb|exact Ha].
Defined.

End WeaponDataFacts.

Module EffectsFacts2.
Import Effects.
Local Open Scope Z_scope.

(** Once an effect has expired at one evaluation point (the start or end
    of the owner's turn in a round), it is expired at every later one. *)
Lemma isEffectExpired_monotone (uuid : string) (e : ActiveEffect) (round round' : Z)
    (start start' : bool)
    (Hle : eval_index round start <= eval_index round' start')
    (Hx : isEffectExpired uuid round e start = true) :
  isEffectExpired uuid round' e start' = true.
Proof.
  unfold isEffectExpired, eval_index in *.
  destruct (rounds e) as [r|]; [|discriminate].
  destruct (bool_decide (origin e = uuid)); destruct start, start';
    rewrite ?Z.leb_le, ?Z.ltb_lt in *; lia.
Qed.

(** Lifted to [expireEffects]: the effects removed at one point would be
    removed at any later one. *)
Lemma expireEffects_monotone (uuid : string) (effects : list (string * ActiveEffect))
    (round round' : Z) (start start' : bool) (i : string)
    (Hle : eval_index round start <= eval_index round' start')
    (Hi : i ∈ expireEffects uuid round effects start) :
  i ∈ expireEffects uuid round' effects start'.
Proof.
  unfold expireEffects in *.
  apply list_elem_of_fmap in Hi as ([i' e] & -> & Hin).
  apply list_elem_of_filter in Hin as [Hx Hin].
  apply list_elem_of_fmap. exists (i', e). split; [done|].
  apply list_elem_of_filter. split; [|done].
  exact (isEffectExpired_monotone uuid e round round' start start' Hle Hx).
Qed.

Lemma expireEffects_monotone_witness :
  let e := {| startRound := 1; rounds := Some 2; origin := "Actor.b" |} in
  expireEffects "Actor.a" 3 [("fx1", e)] false = ["fx1"] /\
  "fx1" ∈ expireEffects "Actor.a" 4 [("fx1", e)] true.
Proof.
  intros e. split; [reflexivity|].
  exact (expireEffects_monotone "Actor.a" [("fx1", e)] 3 4 false true "fx1"
           ltac:(unfold eval_index; lia) ltac:(vm_compute; left)).
Defined.

End EffectsFacts2.

Module ResourcesFacts2.
Import Resources KeyFacts.
Local Open Scope Z_scope.

Lemma clamped_bounds (x m : Z) : 0 <= m -> 0 <= clamped x 0 m <= m.
Proof. unfold clamped. lia. Qed.

Lemma alter_loop_app (r : pools) (u : updates_t) (cs1 cs2 : list (string * Z)) :
  alter_loop r u (cs1 ++ cs2) = alter_loop r u cs1 ≫= fun u1 => alter_loop r u1 cs2.
Proof.
  revert u. induction cs1 as [|[n d] cs1 IH]; intros u; simpl; [done|].
  destruct (alter_step r u n d); simpl; [apply IH|done].
Qed.

Lemma alter_step_bounds (r : pools) (u u' : updates_t) (n : string) (d : Z)
    (Hmax : forall n p, r !! n = Some p -> 0 <= max p) :
  alter_step r u n d = Some u' -> forall k v, u' !! k = Some v ->
    u !! k = Some v \/ exists n p, k = key n /\ r !! n = Some p /\ 0 <= v <= max p.
Proof.
  unfold alter_step. intros Hs k v Hk.
  destruct (r !! n) as [p|] eqn:Ep; [|discriminate].
  destruct (bool_decide (n = "health") && _) eqn:Eh;
    [destruct (r !! "wounds") as [w|] eqn:Ew; [|discriminate]|];
    (destruct (bool_decide (n = "morale") && _) eqn:Em;
     [destruct (r !! "madness") as [m|] eqn:Emd; [|discriminate]|]);
    injection Hs as <-;
    repeat (apply lookup_insert_Some in Hk as [[<- <-]|[_ Hk]];
            [right; eexists _, _; split; [reflexivity|]; split; [eassumption|];
             apply clamped_bounds; eapply Hmax; eassumption|]);
    by left.
Qed.

Lemma alter_step_keeps (r : pools) (u u' : updates_t) (n : string) (d : Z) (k : string)
    (Hk : forall n p, r !! n = Some p -> k <> key n) :
  alter_step r u n d = Some u' -> u' !! k = u !! k.
Proof.
  unfold alter_step. intros Hs.
  destruct (r !! n) as [p|] eqn:Ep; [|discriminate].
  destruct (bool_decide (n = "health") && _) eqn:Eh;
    [destruct (r !! "wounds") as [w|] eqn:Ew; [|discriminate]|];
    (destruct (bool_decide (n = "morale") && _) eqn:Em;
     [destruct (r !! "madness") as [m|] eqn:Emd; [|discriminate]|]);
    injection Hs as <-;
    rewrite ?lookup_insert_ne by (apply not_eq_sym; eapply Hk; eassumption); done.
Qed.

(** Every value [alterResources] writes lies in [[0, max]] of the pool it
    belongs to, when no pool has a negative maximum. It writes only the
    value keys of the actor's pools: every other entry of the [updates]
    object passed in (such as a status flag) is kept as it was. *)
Lemma alterResources_bounds (r : pools) (changes : list (string * Z)) (u u' : updates_t)
    (Hmax : forall n p, r !! n = Some p -> 0 <= max p)
    (H : alterResources r changes u = Some u') :
  (forall k v, u' !! k = Some v ->
    u !! k = Some v \/ exists n p, k = key n /\ r !! n = Some p /\ 0 <= v <= max p) /\
  (forall k, (forall n p, r !! n = Some p -> k <> key n) -> u' !! k = u !! k).
Proof.
  unfold alterResources in H. split.
  - revert u H. induction changes as [|[n d] cs IH]; intros u H k v Hk; simpl in H.
    + injection H as ->. by left.
    + destruct (alter_step r u n d) as [u1|] eqn:E1; [|discriminate].
      destruct (IH u1 H k v Hk) as [Hk1|Hw]; [|by right].
      exact (alter_step_bounds r u u1 n d Hmax E1 k v Hk1).
  - intros k Hk. revert u H. induction changes as [|[n d] cs IH]; intros u H; simpl in H.
    + by injection H as ->.
    + destruct (alter_step r u n d) as [u1|] eqn:E1; [|discriminate].
      rewrite (IH u1 H). exact (alter_step_keeps r u u1 n d k Hk E1).
Qed.

Lemma alterResources_bounds_witness :
  let r := <["health" := {| value := 10; max := 20 |}]>
             (<["wounds" := {| value := 0; max := 50 |}]> ∅) in
  let u : updates_t := {[ "system.status.battleFocus" := 1 ]} in
  exists u', alterResources r [("health", -20)] u = Some u' /\ u' !! key "wounds" = Some 10 /\
    (u !! key "wounds" = Some 10 \/
     exists n p, key "wounds" = key n /\ r !! n = Some p /\ 0 <= 10 <= max p) /\
    u' !! "system.status.battleFocus" = Some 1.
Proof.
  intros r u. eexists. split; [reflexivity|]. split; [reflexivity|].
  assert (Hmax : forall n p, r !! n = Some p -> 0 <= max p).
  { intros n p Hp. unfold r in Hp.
    apply lookup_insert_Some in Hp as [[_ <-]|[_ Hp]]; [simpl; lia|].
    apply lookup_insert_Some in Hp as [[_ <-]|[_ Hp]]; [simpl; lia|].
    by rewrite lookup_empty in Hp. }
  destruct (alterResources_bounds r [("health", -20)] u _ Hmax eq_refl) as [Hb Hk].
  split; [exact (Hb (key "wounds") 10 eq_refl)|].
  rewrite Hk; [reflexivity|].
  intros n p Hp Heq. unfold r in Hp.
  apply lookup_insert_Some in Hp as [[<- _]|[_ Hp]]; [discriminate|].
  apply lookup_insert_Some in Hp as [[<- _]|[_ Hp]]; [discriminate|].
  by rewrite lookup_empty in Hp.
Defined.

Lemma alter_step_some (r : pools) (u : updates_t) (n : string) (d : Z)
    (Hw : is_Some (r !! "wounds")) (Hm : is_Some (r !! "madness")) :
  is_Some (alter_step r u n d) <-> is_Some (r !! n).
Proof.
  destruct Hw as [w Hw], Hm as [m Hm]. unfold alter_step.
  destruct (r !! n) as [p|]; [|split; intros [? ?]; discriminate].
  rewrite Hw, Hm. split; [eauto|]. intros _.
  repeat case_match; simplify_eq; eauto.
Qed.

(** With the wounds and madness pools present, [alterResources] fails
    (the TypeError of [resource.value] on [undefined]) exactly when some
    change names a resource pool the actor does not have. *)
Lemma alterResources_fails_iff (r : pools) (changes : list (string * Z)) (u : updates_t)
    (Hw : is_Some (r !! "wounds")) (Hm : is_Some (r !! "madness")) :
  alterResources r changes u = None <-> exists n d, (n, d) ∈ changes /\ r !! n = None.
Proof.
  unfold alterResources. revert u. induction changes as [|[n d] cs IH]; intros u; simpl.
  - split; [discriminate|]. intros (? & ? & Hin & _). by apply elem_of_nil in Hin.
  - pose proof (alter_step_some r u n d Hw Hm) as Hs.
    destruct (r !! n) as [p|] eqn:Ep.
    + destruct (alter_step r u n d) as [u1|]; [|destruct (proj2 Hs ltac:(eauto)); discriminate].
      rewrite IH. split.
      * intros (n' & d' & Hin & Hn'). exists n', d'. split; [by right|done].
      * intros (n' & d' & Hin & Hn'). apply elem_of_cons in Hin as [Heq|Hin].
        -- injection Heq as -> ->. congruence.
        -- eauto.
    + destruct (alter_step r u n d) as [u1|].
      * destruct (proj1 Hs ltac:(eauto)). discriminate.
      * split; [|done]. intros _. exists n, d. split; [by left|done].
Qed.

Lemma alterResources_fails_iff_witness :
  let r := <["wounds" := {| value := 0; max := 5 |}]>
             (<["madness" := {| value := 0; max := 5 |}]> ∅) in
  alterResources r [("wounds", 1); ("health", -3)] ∅ = None /\
  exists n d, (n, d) ∈ [("wounds", 1); ("health", -3)] /\ r !! n = None.
Proof.
  intros r. split; [reflexivity|].
  apply (alterResources_fails_iff r _ ∅ ltac:(eexists; reflexivity) ltac:(eexists; reflexivity)).
  reflexivity.
Defined.

Lemma alter_step_keeps_wounds (r : pools) (u u' : updates_t) (n : string) (d : Z)
    (Hh : n <> "health") (Hn : n <> "wounds") :
  alter_step r u n d = Some u' -> u' !! key "wounds" = u !! key "wounds".
Proof.
  unfold alter_step. intros Hs.
  destruct (r !! n) as [p|]; [|discriminate].
  rewrite (bool_decide_false (n = "health")) in Hs by done. simpl in Hs.
  destruct (bool_decide (n = "morale") && _);
    [destruct (r !! "madness"); [|discriminate]|]; injection Hs as <-;
    rewrite !lookup_insert_ne; try done; intros Hk; apply key_inj in Hk; congruence.
Qed.

(** Change entries are applied in order and each writes its own pool from
    the value the actor had before the call: when a change list names
    wounds after health, the wounds value it writes is the old wounds plus
    the wounds delta, and the overflow written by the health entry is
    lost (as long as no later entry names health or wounds again). *)
Lemma alterResources_wounds_entry_overwrites (r : pools) (cs1 cs2 : list (string * Z))
    (d : Z) (w : Resource) (u u' : updates_t)
    (Hw : r !! "wounds" = Some w)
    (H2 : forall n d', (n, d') ∈ cs2 -> n <> "health" /\ n <> "wounds")
    (H : alterResources r (cs1 ++ ("wounds", d) :: cs2) u = Some u') :
  u' !! key "wounds" = Some (clamped (value w + d) 0 (max w)).
Proof.
  unfold alterResources in H. rewrite alter_loop_app in H.
  destruct (alter_loop r u cs1) as [u1|]; [|discriminate]. simpl in H.
  unfold alter_step at 1 in H. rewrite Hw in H.
  rewrite (bool_decide_false ("wounds" = "health")), (bool_decide_false ("wounds" = "morale"))
    in H by done. simpl in H.
  set (u2 := <[key "wounds" := clamped (value w + d) 0 (max w)]> u1) in H.
  assert (Hu2 : u2 !! key "wounds" = Some (clamped (value w + d) 0 (max w)))
    by apply lookup_insert_eq.
  clearbody u2. revert u2 Hu2 H. induction cs2 as [|[n d'] cs2 IH]; intros u2 Hu2 H; simpl in H.
  - by injection H as <-.
  - destruct (alter_step r u2 n d') as [u3|] eqn:E3; [|discriminate].
    destruct (H2 n d') as [Hh Hn]; [by left|].
    apply (IH ltac:(intros n0 d0 Hin; apply (H2 n0 d0); by right) u3); [|done].
    by rewrite (alter_step_keeps_wounds r u2 u3 n d' Hh Hn E3).
Qed.

Lemma alterResources_wounds_entry_overwrites_witness :
  let r := <["health" := {| value := 10; max := 20 |}]>
             (<["wounds" := {| value := 0; max := 50 |}]> ∅) in
  exists u', alterResources r ([("health", -20)] ++ [("wounds", 3)]) ∅ = Some u' /\
    u' !! key "wounds" = Some 3.
Proof.
  intros r. eexists. split; [reflexivity|].
  exact (alterResources_wounds_entry_overwrites r [("health", -20)] [] 3
           {| value := 0; max := 50 |} ∅ _ eq_refl ltac:(intros ? ? Hin; by apply elem_of_nil in Hin)
           eq_refl).
Defined.

End ResourcesFacts2.

Module TokenFacts2.
Import Token TokenFacts.

Lemma unlink_self (st : canvas) (self t : nat) :
  engaged (unlink st self t) self = engaged st self ∖ {[t]}.
Proof.
  unfold unlink. rewrite !engaged_insert.
  repeat case_decide; subst; try done; set_solver.
Qed.

Lemma link_self (st : canvas) (self t : nat) :
  engaged (link st self t) self = engaged st self ∪ {[t]}.
Proof.
  unfold link. rewrite !engaged_insert.
  repeat case_decide; subst; try done; set_solver.
Qed.

Lemma flank_remove_loop (st : canvas) (self : nat) (enemies : gset nat) (l : list nat) (x : nat) :
  x ∈ engaged (foldl (fun st t =>
      if bool_decide (t ∈ enemies) then st else unlink st self t) st l) self <->
  x ∈ engaged st self /\ ~ (x ∈ l /\ x ∉ enemies).
Proof.
  revert st. induction l as [|t l IH]; intros st; simpl.
  - split; [intros H; split; [done|]; intros [Hin _]; by apply elem_of_nil in Hin|tauto].
  - rewrite IH. case_bool_decide as Ht; [|rewrite unlink_self]; set_solver.
Qed.

Lemma flank_add_loop (st : canvas) (self : nat) (l : list nat) (x : nat) :
  x ∈ engaged (foldl (fun st t =>
      if bool_decide (t ∈ engaged st self) then st else link st self t) st l) self <->
  x ∈ engaged st self \/ x ∈ l.
Proof.
  revert st. induction l as [|t l IH]; intros st; simpl.
  - rewrite elem_of_nil. tauto.
  - rewrite IH. case_bool_decide as Ht; [|rewrite link_self]; set_solver.
Qed.

(** After [updateFlanking], the token's engaged set is exactly the set of
    enemies it was given. *)
Lemma updateFlanking_engaged_self (st : canvas) (self : nat) (enemies : gset nat) :
  engaged (updateFlanking st self enemies) self = enemies.
Proof.
  unfold updateFlanking. apply set_eq. intros x.
  rewrite flank_add_loop, flank_remove_loop, !elem_of_elements.
  destruct (decide (x ∈ enemies)); tauto.
Qed.

(** The deletion handler runs to its end exactly when it does not commit
    or every engaged token has an actor; then, when engagement was
    symmetric, the deleted token is in no engaged set, its own included. *)
Lemma onDelete_forgets (st : canvas) (self : nat) (commit : bool) (hasActor : nat -> bool)
    (Hsym : symmetric st) :
  ((exists st', onDelete st self commit hasActor = Done st') <->
   commit = false \/ (forall t, t ∈ engaged st self -> hasActor t = true)) /\
  (forall st' t, onDelete st self commit hasActor = Done st' -> self ∉ engaged st' t).
Proof.
  unfold onDelete. split.
  - destruct (onDelete_loop _ _ _ _ _) as [s|s] eqn:E.
    + apply onDelete_loop_done in E as [_ Hc]. split; [intros _|eauto].
      destruct Hc as [?|HF]; [by left|right]. intros t Ht.
      rewrite Forall_forall in HF. apply HF. by apply elem_of_elements.
    + split; [intros (? & ?); discriminate|]. intros Hc.
      destruct (onDelete_loop_thrown _ _ _ _ _ _ E) as (l1 & t & l2 & Hl & -> & Ha & _).
      destruct Hc as [?|Hc]; [discriminate|].
      assert (t ∈ engaged st self) by (apply elem_of_elements; rewrite Hl; set_solver).
      rewrite Hc in Ha; [discriminate|done].
  - intros st' t Hd.
    destruct (onDelete_loop _ _ _ _ _) as [s|s] eqn:E; [|discriminate].
    injection Hd as <-. apply onDelete_loop_done in E as [-> _].
    unfold forget_all. rewrite engaged_insert, forget_engaged.
    case_decide; [set_solver|].
    case_decide as Hin; [set_solver|].
    rewrite elem_of_elements in Hin. intros Hs. apply Hin, Hsym, Hs.
Qed.

Lemma onDelete_forgets_witness :
  let st : canvas := <[1 := {[2; 3]}]> (<[2 := {[1]}]> (<[3 := {[1]}]> ∅)) in
  let st' : canvas := <[1 := ∅]> (<[2 := ∅]> (<[3 := ∅]> ∅)) in
  symmetric st /\ onDelete st 1 true (fun _ => true) = Done st' /\ (1 ∉ engaged st' 2) /\
  ~ (exists s, onDelete st 1 true (fun t => negb (Nat.eqb t 3)) = Done s).
Proof.
  intros st st'.
  assert (H : symmetric st) by (apply symmetricb_sound; vm_compute; reflexivity).
  assert (Hd : onDelete st 1 true (fun _ => true) = Done st') by (vm_compute; reflexivity).
  split; [exact H|]. split; [exact Hd|]. split.
  - exact (proj2 (onDelete_forgets st 1 true (fun _ => true) H) st' 2 Hd).
  - intros Hs. apply (onDelete_forgets st 1 true (fun t => negb (Nat.eqb t 3)) H) in Hs.
    destruct Hs as [?|Hs]; [discriminate|].
    assert (H3 : 3 ∈ engaged st 1) by (apply (bool_decide_eq_true_1 _); vm_compute; reflexivity).
    specialize (Hs 3 H3). discriminate.
Defined.

End TokenFacts2.

Module TalentsFacts2.
Import Talents TalentsFacts.
Local Open Scope Z_scope.

Lemma talent_step_runes_mono (s : TalentState) (t : Talent) :
  runes (grimoire s) ⊆ runes (grimoire (talent_step s t)).
Proof. unfold talent_step. repeat case_match; simpl; set_solver. Qed.

Lemma talent_loop_runes_mono (l : list Talent) (s : TalentState) :
  runes (grimoire s) ⊆ runes (grimoire (foldl talent_step s l)).
Proof.
  revert s. induction l as [|t l IH]; intros s; simpl; [done|].
  etrans; [apply talent_step_runes_mono|apply IH].
Qed.

Lemma talent_step_rune (s : TalentState) (t : Talent) :
  truthy (rune t) = true ->
  rune t ∈ runes (grimoire (talent_step s t)) /\ gestures (grimoire (talent_step s t)) ≠ ∅.
Proof.
  intros Hr. unfold talent_step. rewrite Hr. simpl.
  case_bool_decide; repeat case_match; simpl; set_solver.
Qed.

Lemma default_fold_keeps (defaults : list string) (g : Grimoire) (reload : bool)
    (reg : gmap string string) (k : string) :
  is_Some (reg !! k) ->
  is_Some (foldl (fun reg a =>
      if bool_decide (a = "cast") && negb (bool_decide (gestures g ≠ ∅) && bool_decide (runes g ≠ ∅))
      then reg
      else if bool_decide (a = "reload") && negb reload then reg
      else <[a := "default"]> reg) reg defaults !! k).
Proof.
  revert reg. induction defaults as [|a l IH]; intros reg Hk; simpl; [done|].
  apply IH. repeat case_match; try done.
  destruct (decide (a = k)) as [->|Hne]; [rewrite lookup_insert_eq; eauto|by rewrite lookup_insert_ne].
Qed.

Lemma talents_fold_keeps (talent : list Talent) (reg : gmap string string) (k : string) :
  is_Some (reg !! k) ->
  is_Some (foldl (fun reg t => foldl (fun reg a => <[a := tid t]> reg) reg (actions t))
             reg talent !! k).
Proof.
  revert reg. induction talent as [|t l IH]; intros reg Hk; simpl; [done|].
  apply IH, fold_insert_keeps, Hk.
Qed.

(** An actor owning a talent that grants a rune always has the default
    ["cast"] action registered: the rune is in the grimoire, and a gesture
    is too ("touch" when none was known). *)
Lemma prepareActor_cast_registered (talent : list Talent) (budget : Z)
    (defaults : list string) (reload : bool) (t : Talent)
    (Hc : "cast" ∈ defaults) (Ht : t ∈ talent) (Hr : truthy (rune t) = true) :
  is_Some (snd (prepareActor talent budget defaults reload) !! "cast").
Proof.
  unfold prepareActor, prepareActions, prepareTalents. simpl.
  apply talents_fold_keeps.
  set (g := grimoire (foldl talent_step (startState (initialTalentPoints budget)) talent)).
  assert (Hg : rune t ∈ runes g /\ gestures g ≠ ∅).
  { apply list_elem_of_split in Ht as (pre & post & ->).
    unfold g. rewrite foldl_app. simpl.
    destruct (talent_step_rune (foldl talent_step (startState (initialTalentPoints budget)) pre) t Hr)
      as [H1 H2].
    split.
    - apply talent_loop_runes_mono, H1.
    - pose proof (talent_loop_gestures_mono post
        (talent_step (foldl talent_step (startState (initialTalentPoints budget)) pre) t)).
      set_solver. }
  destruct Hg as [Hrune Hgest].
  apply list_elem_of_split in Hc as (d1 & d2 & ->).
  rewrite foldl_app. simpl. apply default_fold_keeps.
  rewrite ?(bool_decide_true ("cast" = "cast")) by done.
  rewrite (bool_decide_true (gestures g ≠ ∅)) by done.
  rewrite (bool_decide_true (runes g ≠ ∅)) by set_solver.
  rewrite ?(bool_decide_false ("cast" = "reload")) by done. simpl.
  rewrite lookup_insert_eq. eauto.
Qed.

Lemma prepareActor_cast_registered_witness :
  let t := {| tid := "t1"; rune := "flame"; gesture := ""; inflection := ""; actions := [] |} in
  is_Some (snd (prepareActor [t] 1 ["strike"; "cast"] false) !! "cast").
Proof.
  intros t. exact (prepareActor_cast_registered [t] 1 ["strike"; "cast"] false t
                     ltac:(set_solver) ltac:(set_solver) eq_refl).
Defined.

End TalentsFacts2.

Module StandardizeFacts2.
Import Standardize.

Lemma slugify_chars (s : string) (i : nat) (c : ascii) :
  String.get i (slugify s) = Some c -> is_lower c || is_digit c = true.
Proof.
  revert i. induction s as [|c0 s IH]; intros i H; simpl in H; [discriminate|].
  destruct (is_lower (to_lower c0) || is_digit (to_lower c0)) eqn:E.
  - destruct i as [|i]; simpl in H; [by injection H as <-|by apply (IH i)].
  - by apply (IH i).
Qed.

Lemma take_str_get (n i : nat) (s : string) (c : ascii) :
  String.get i (take_str n s) = Some c -> String.get i s = Some c.
Proof.
  revert i s. induction n as [|n IH]; intros i s H; [discriminate|].
  destruct s as [|c0 s]; [discriminate|]. simpl in H.
  destruct i as [|i]; simpl in *; [done|by apply IH].
Qed.

Lemma take_str_length (n : nat) (s : string) :
  String.length (take_str n s) = Nat.min n (String.length s).
Proof.
  revert s. induction n as [|n IH]; intros s; [done|].
  destruct s as [|c s]; simpl; [done|]. by rewrite IH.
Qed.

Lemma zeros_length (k : nat) : String.length (String.concat "" (repeat "0" k)) = k.
Proof.
  induction k as [|k IH]; [done|].
  destruct k as [|k]; [done|].
  change (String.concat "" (repeat "0" (S (S k)))) with
    (String "0" (String.concat "" (repeat "0" (S k)))).
  cbn [String.length]. by rewrite IH.
Qed.

Lemma zeros_get (k i : nat) (c : ascii) :
  String.get i (String.concat "" (repeat "0" k)) = Some c -> c = "0"%char.
Proof.
  revert i. induction k as [|k IH]; intros i H; [destruct i; discriminate|].
  destruct k as [|k].
  - destruct i as [|[|i]]; simpl in H; [by injection H|discriminate|discriminate].
  - change (String.concat "" (repeat "0" (S (S k)))) with
      (String "0" (String.concat "" (repeat "0" (S k)))) in H.
    destruct i as [|i]; simpl in H; [by injection H|by apply (IH i)].
Qed.

Lemma string_length_app2 (a s : string) :
  String.length (a +:+ s) = String.length a + String.length s.
Proof. induction a as [|c a IH]; simpl; [done|]. by rewrite IH. Qed.

Lemma get_app (a b : string) (i : nat) (c : ascii) :
  String.get i (a +:+ b) = Some c ->
  String.get i a = Some c \/ exists j, String.get j b = Some c.
Proof.
  revert i. induction a as [|c0 a IH]; intros i H; simpl in H; [right; eauto|].
  destruct i as [|i]; simpl in *; [by left|by apply IH].
Qed.

(** Every standard id is 16 characters long and made of lower-case
    ASCII letters and digits only. *)
Lemma standardId_shape (item : WorldItem) :
  String.length (standardId item) = 16 /\
  (forall i c, String.get i (standardId item) = Some c -> is_lower c || is_digit c = true).
Proof.
  unfold standardId, padEnd16. split.
  - rewrite string_length_app2, zeros_length, take_str_length. lia.
  - intros i c H. apply get_app in H as [H|(j & H)].
    + apply take_str_get in H. by apply slugify_chars in H.
    + apply zeros_get in H as ->. reflexivity.
Qed.

Lemma standardize_loop_commit (world items : list WorldItem) (d : list string)
    (c : list WorldItem) (dels : list string) (cr : list WorldItem) :
  standardize_loop world items d c = Commit dels cr ->
  dels = d ++ map id (filter (fun i => id i ≠ standardId i) items) /\
  cr = c ++ map (fun i => {| id := standardId i; name := name i |})
                (filter (fun i => id i ≠ standardId i) items).
Proof.
  revert d c. induction items as [|i items IH]; intros d c H; simpl in H.
  - injection H as <- <-. by rewrite !app_nil_r.
  - rewrite filter_cons.
    case_bool_decide as Hs.
    + rewrite decide_False by (intros Hn; exact (Hn Hs)). by apply IH.
    + rewrite decide_True by done.
      destruct (existsb _ world); [discriminate|].
      destruct (IH _ _ H) as [-> ->]. simpl. by rewrite <- !app_assoc.
Qed.

(** When [standardizeItemIds] commits, it deletes exactly the items whose
    id is not their standard id and creates one copy of each under its
    standard id; the copies are already standard, so a second run leaves
    them alone. *)
Lemma standardizeItemIds_commit (world : list WorldItem) (dels : list string)
    (cr : list WorldItem) (H : standardizeItemIds world = Commit dels cr) :
  dels = map id (filter (fun i => id i ≠ standardId i) world) /\
  cr = map (fun i => {| id := standardId i; name := name i |})
           (filter (fun i => id i ≠ standardId i) world) /\
  (forall c, c ∈ cr -> id c = standardId c).
Proof.
  destruct (standardize_loop_commit world world [] [] dels cr H) as [Hd Hc].
  simpl in Hd, Hc. split; [done|]. split; [done|].
  intros c Hin. rewrite Hc in Hin. apply list_elem_of_In, in_map_iff in Hin as (i & <- & _).
  reflexivity.
Qed.

Lemma standardizeItemIds_commit_witness :
  let world := [ {| id := "aB3dE5gH7jK9mN1p"; name := "Iron Sword" |};
                 {| id := "shield0000000000"; name := "Shield" |} ] in
  standardizeItemIds world = Commit ["aB3dE5gH7jK9mN1p"]
    [ {| id := "ironsword0000000"; name := "Iron Sword" |} ] /\
  id {| id := "ironsword0000000"; name := "Iron Sword" |} =
  standardId {| id := "ironsword0000000"; name := "Iron Sword" |}.
Proof.
  intros world. split; [vm_compute; reflexivity|].
  refine (proj2 (proj2 (standardizeItemIds_commit world _ _ ltac:(vm_compute; reflexivity))) _ _).
  left.
Defined.

Lemma standardize_loop_conflict (world items : list WorldItem) (d : list string)
    (c : list WorldItem) :
  (exists sid, standardize_loop world items d c = Conflict sid) <->
  exists i j, i ∈ items /\ id i ≠ standardId i /\ j ∈ world /\ id j = standardId i.
Proof.
  revert d c. induction items as [|i items IH]; intros d c; simpl.
  - split; [intros (? & ?); discriminate|]. intros (i & j & Hi & _). by apply elem_of_nil in Hi.
  - case_bool_decide as Hs.
    + rewrite IH. split.
      * intros (i' & j & ? & ?). exists i', j. set_solver.
      * intros (i' & j & Hi & Hn & Hj). apply elem_of_cons in Hi as [->|Hi]; [done|eauto 6].
    + destruct (existsb (fun i0 => bool_decide (id i0 = standardId i)) world) eqn:Ex.
      * split; [|eauto]. intros _. apply existsb_exists in Ex as (j & Hj & Hjb).
        apply bool_decide_eq_true in Hjb. exists i, j. split; [by left|].
        split; [done|]. split; [by apply list_elem_of_In|done].
      * rewrite IH. split.
        -- intros (i' & j & ? & ?). exists i', j. set_solver.
        -- intros (i' & j & Hi & Hn & Hj & Hid). apply elem_of_cons in Hi as [Hii|Hi]; [subst i'|eauto 6].
           exfalso. assert (Htrue : existsb (fun i0 => bool_decide (id i0 = standardId i)) world = true).
           { apply existsb_exists. exists j. split; [by apply list_elem_of_In|].
             by apply bool_decide_eq_true. }
           congruence.
Qed.

(** [standardizeItemIds] throws its conflict error exactly when some item
    with a non-standard id has a standard id that some item of the world
    already uses. *)
Lemma standardizeItemIds_conflict_iff (world : list WorldItem) :
  (exists sid, standardizeItemIds world = Conflict sid) <->
  exists i j, i ∈ world /\ id i ≠ standardId i /\ j ∈ world /\ id j = standardId i.
Proof. apply standardize_loop_conflict. Qed.

End StandardizeFacts2.
